(** * AppStack: debounced multi-language code runner (src/main.py)

    A shallow embedding of the scheduler and dispatcher of [AppStack]:
    the debounce timer, [run_code], [save_code], [execute_code],
    [run_gui_preview], [clear_output] and [on_gui_finished], and of
    [PythonHighlighter], together with the part of Python's [json] module
    that [save_code] and [execute_code] go through, the UTF-8 encoder
    behind [write] and [subprocess.run], and a model of the file system
    and of the child processes they act on. *)

From Stdlib Require Import NArith ZArith Lia Ascii String DecimalString.
From stdpp Require Import base option gmap strings list.

Local Open Scope N_scope.

(** ** Text

    A Python [str] is a sequence of code points. *)

Definition text := list N.

Fixpoint str (s : string) : text :=
  match s with
  | EmptyString => []
  | String a s' => Ascii.N_of_ascii a :: str s'
  end.

(** [needle in hay] on [str]: [needle] occurs as a contiguous run. *)

Fixpoint starts_with (needle hay : text) : bool :=
  match needle, hay with
  | [], _ => true
  | _ :: _, [] => false
  | a :: needle', b :: hay' => (a =? b) && starts_with needle' hay'
  end.

Fixpoint contains (needle hay : text) : bool :=
  starts_with needle hay ||
  match hay with
  | [] => false
  | _ :: hay' => contains needle hay'
  end.

(** Code points of a text Python can hold. *)

Definition code_point (c : N) : Prop := c < 0x110000.

Definition high_surrogate (c : N) : bool := (0xd800 <=? c) && (c <=? 0xdbff).
Definition low_surrogate (c : N) : bool := (0xdc00 <=? c) && (c <=? 0xdfff).

(** A high surrogate directly followed by a low surrogate.  A text
    converted from UTF-16, such as the one [QTextEdit.toPlainText]
    returns, has none: the conversion turns every such pair into the one
    code point it encodes. *)

Fixpoint surrogate_pair_free (s : text) : Prop :=
  match s with
  | [] => True
  | c :: s' =>
      match s' with
      | [] => True
      | d :: _ => ~ (high_surrogate c = true /\ low_surrogate d = true)
      end /\ surrogate_pair_free s'
  end.

Definition editor_text (s : text) : Prop :=
  Forall code_point s /\ surrogate_pair_free s.

(** ** The UTF-8 encoder

    [str.encode] to UTF-8, the encoding files are opened with and
    arguments are passed in where the locale is a UTF-8 one, as is taken
    here.  It cannot encode a surrogate.  With the [surrogateescape]
    handler, which [os.fsencode] applies to the arguments of a program,
    the surrogates from U+DC80 to U+DCFF stand for a byte and are
    encoded.  The error names the character the encoder stops at, its
    position, and the end of the run of surrogates it belongs to. *)

Definition surrogate (c : N) : bool := (0xd800 <=? c) && (c <=? 0xdfff).
Definition escapable (c : N) : bool := (0xdc80 <=? c) && (c <=? 0xdcff).

(** The number of surrogates a text starts with. *)
Fixpoint surrogate_run (s : text) : nat :=
  match s with
  | c :: s' => if surrogate c then S (surrogate_run s') else O
  | [] => O
  end.

Fixpoint utf8_error (surrogateescape : bool) (i : nat) (s : text)
  : option (N * nat * nat) :=
  match s with
  | [] => None
  | c :: s' =>
      if surrogate c && negb (surrogateescape && escapable c)
      then Some (c, i, (S i + surrogate_run s')%nat)
      else utf8_error surrogateescape (S i) s'
  end.

(** ** json.dump with the default [ensure_ascii=True]

    [json.encoder.py_encode_basestring_ascii]: every character outside
    the printable ASCII range, and each of backslash and double quote, is
    escaped. *)

Definition hex_digit (n : N) : N := if n <? 10 then 48 + n else 87 + n.

(** The escape of [n < 0x10000]: backslash, u and four lower-case
    hexadecimal digits. *)
Definition u_escape (n : N) : text :=
  [92; 117; hex_digit (n / 4096 mod 16); hex_digit (n / 256 mod 16);
   hex_digit (n / 16 mod 16); hex_digit (n mod 16)].

Definition escape_char (c : N) : text :=
  if c =? 92 then [92; 92]
  else if c =? 34 then [92; 34]
  else if c =? 8 then [92; 98]
  else if c =? 12 then [92; 102]
  else if c =? 10 then [92; 110]
  else if c =? 13 then [92; 114]
  else if c =? 9 then [92; 116]
  else if (32 <=? c) && (c <=? 126) then [c]
  else if c <? 0x10000 then u_escape c
  else
    let n := c - 0x10000 in
    u_escape (N.lor 0xd800 (N.land (N.shiftr n 10) 0x3ff)) ++
    u_escape (N.lor 0xdc00 (N.land n 0x3ff)).

Definition encode_basestring_ascii (s : text) : text :=
  34 :: flat_map escape_char s ++ [34].

(** A [dict] with [str] keys and values, in insertion order. *)
Definition pydict := list (text * text).

(** [d[k]]: the last binding of [k], [KeyError] when there is none. *)
Fixpoint dict_get (k : text) (d : pydict) : option text :=
  match d with
  | [] => None
  | (k', v) :: d' =>
      match dict_get k d' with
      | Some v' => Some v'
      | None => if decide (k = k') then Some v else None
      end
  end.

(** The members of a dict, each [key: value], separated by a comma and
    a space. *)
Fixpoint dump_members (d : pydict) : text :=
  match d with
  | [] => []
  | [(k, v)] => encode_basestring_ascii k ++ str ": " ++ encode_basestring_ascii v
  | (k, v) :: d' =>
      encode_basestring_ascii k ++ str ": " ++ encode_basestring_ascii v ++
      str ", " ++ dump_members d'
  end.

Definition json_dumps (d : pydict) : text :=
  str "{" ++ dump_members d ++ str "}".

(** ** json.load

    [json.decoder.py_scanstring] (strict): the text after an opening
    quote up to the closing one, with the escapes undone.  An escaped high
    surrogate directly followed by an escaped low surrogate is read as the
    single code point the pair encodes.  Returns the string and the input
    left after the closing quote, [None] where the decoder raises
    [JSONDecodeError]. *)

Definition hex_value (c : N) : option N :=
  if (48 <=? c) && (c <=? 57) then Some (c - 48)
  else if (97 <=? c) && (c <=? 102) then Some (c - 87)
  else if (65 <=? c) && (c <=? 70) then Some (c - 55)
  else None.

Definition decode_uXXXX (h1 h2 h3 h4 : N) : option N :=
  a ← hex_value h1; b ← hex_value h2; c ← hex_value h3; d ← hex_value h4;
  Some (((a * 16 + b) * 16 + c) * 16 + d).

Definition backslash (e : N) : option N :=
  if e =? 34 then Some 34
  else if e =? 92 then Some 92
  else if e =? 47 then Some 47
  else if e =? 98 then Some 8
  else if e =? 102 then Some 12
  else if e =? 110 then Some 10
  else if e =? 114 then Some 13
  else if e =? 116 then Some 9
  else None.

Definition consume (c : N) (r : option (text * text)) : option (text * text) :=
  '(s, rest) ← r; Some (c :: s, rest).

Fixpoint scanstring (s : text) : option (text * text) :=
  match s with
  | [] => None
  | c :: s1 =>
      if c =? 34 then Some ([], s1)
      else if c =? 92 then
        match s1 with
        | [] => None
        | e :: s2 =>
            if e =? 117 then
              match s2 with
              | h1 :: h2 :: h3 :: h4 :: s3 =>
                  match decode_uXXXX h1 h2 h3 h4 with
                  | None => None
                  | Some uni =>
                      if high_surrogate uni then
                        match s3 with
                        | b :: u :: s4 =>
                            if (b =? 92) && (u =? 117) then
                              match s4 with
                              | g1 :: g2 :: g3 :: g4 :: s5 =>
                                  match decode_uXXXX g1 g2 g3 g4 with
                                  | None => None
                                  | Some uni2 =>
                                      if low_surrogate uni2 then
                                        consume
                                          (0x10000 +
                                           N.lor (N.shiftl (uni - 0xd800) 10)
                                                 (uni2 - 0xdc00))
                                          (scanstring s5)
                                      else consume uni (scanstring s3)
                                  end
                              | _ => None
                              end
                            else consume uni (scanstring s3)
                        | _ => consume uni (scanstring s3)
                        end
                      else consume uni (scanstring s3)
                  end
              | _ => None
              end
            else
              match backslash e with
              | Some d => consume d (scanstring s2)
              | None => None
              end
        end
      else if c <? 32 then None
      else consume c (scanstring s1)
  end.

(** Whether the input goes on with the escape of a low surrogate, or
    with an escape the decoder cannot read: what [scanstring] looks for
    after the escape of a high surrogate. *)
Definition low_escape_ahead (tail : text) : bool :=
  match tail with
  | b :: u :: s4 =>
      (b =? 92) && (u =? 117) &&
      match s4 with
      | g1 :: g2 :: g3 :: g4 :: _ =>
          match decode_uXXXX g1 g2 g3 g4 with
          | Some uni2 => low_surrogate uni2
          | None => true
          end
      | _ => true
      end
  | _ => false
  end.

(** A text with every high surrogate that is directly followed by a
    low surrogate replaced, together with that low surrogate, by the code
    point the pair encodes, from left to right. *)
Fixpoint merge_pairs (s : text) : text :=
  match s with
  | [] => []
  | c :: s' =>
      match s' with
      | d :: s'' =>
          if high_surrogate c && low_surrogate d
          then 0x10000 + N.lor (N.shiftl (c - 0xd800) 10) (d - 0xdc00) :: merge_pairs s''
          else c :: merge_pairs s'
      | [] => [c]
      end
  end.

(** JSON whitespace, skipped between tokens. *)
Definition is_ws (c : N) : bool :=
  (c =? 32) || (c =? 9) || (c =? 10) || (c =? 13).

Fixpoint skip_ws (s : text) : text :=
  match s with
  | c :: s' => if is_ws c then skip_ws s' else s
  | [] => []
  end.

(** [json.decoder.JSONObject], for the objects [save_code] writes: every
    member value is a string.  The input starts at the opening quote of a
    key; [fuel] bounds the number of members.  Any other document is
    reported as [None]. *)
Fixpoint parse_members (fuel : nat) (s : text) : option (pydict * text) :=
  match fuel with
  | O => None
  | S fuel' =>
      match s with
      | q :: s1 =>
          if q =? 34 then
            '(k, s2) ← scanstring s1;
            match skip_ws s2 with
            | colon :: s3 =>
                if colon =? 58 then
                  match skip_ws s3 with
                  | q' :: s4 =>
                      if q' =? 34 then
                        '(v, s5) ← scanstring s4;
                        match skip_ws s5 with
                        | sep :: s6 =>
                            if sep =? 125 then Some ([(k, v)], s6)
                            else if sep =? 44 then
                              '(d, s7) ← parse_members fuel' (skip_ws s6);
                              Some ((k, v) :: d, s7)
                            else None
                        | [] => None
                        end
                      else None
                  | [] => None
                  end
                else None
            | [] => None
            end
          else None
      | [] => None
      end
  end.

(** [json.loads]: leading whitespace, one object, nothing but whitespace
    after it. *)
Definition json_loads (s : text) : option pydict :=
  match skip_ws s with
  | brace :: s1 =>
      if brace =? 123 then
        match skip_ws s1 with
        | c :: s2 =>
            if c =? 125 then
              match skip_ws s2 with [] => Some [] | _ => None end
            else
              '(d, s3) ← parse_members (length s) (skip_ws s1);
              match skip_ws s3 with [] => Some d | _ => None end
        | [] => None
        end
      else None
  | [] => None
  end.

(** ** Languages and the toolchain registry *)

Inductive language := Python | Rust | Go | C | Cpp.

#[global] Instance language_eq_dec : EqDecision language.
Proof. solve_decision. Defined.

(** The key of [language_cmds] and the label of the tab. *)
Definition lang_name (l : language) : string :=
  match l with
  | Python => "Python"
  | Rust => "Rust"
  | Go => "Go"
  | C => "C"
  | Cpp => "C++"
  end.

Definition language_cmds (l : language) : string :=
  match l with
  | Python => "python3"
  | Rust => "rustc"
  | Go => "go run"
  | C => "gcc"
  | Cpp => "g++"
  end.

Definition TEMP_DIR : string := "appstack_temp".

(** [os.path.join] of a directory and a relative name. *)
Definition path_join (d f : string) : string := d +:+ "/" +:+ f.

(** ** Exceptions *)

Inductive exn :=
| FileNotFoundError (p : string)
| PermissionError (p : string)
| JSONDecodeError
| KeyError (k : string)
| UnicodeEncodeError (c : N) (start stop : nat)
| UnicodeDecodeError (message : text)
| ValueError (message : string)
| OSError (errno : nat) (strerror filename : string).

Definition decimal (n : nat) : text :=
  str (NilEmpty.string_of_uint (Nat.to_uint n)).

(** [str(e)]. The message of a JSON decode error is kept short: the
    model does not track the position it reports.  The message of a
    [UnicodeDecodeError] depends on the bytes that were read and is
    carried by the exception. *)
Definition exn_str (e : exn) : text :=
  match e with
  | FileNotFoundError p => str ("[Errno 2] No such file or directory: '" +:+ p +:+ "'")
  | PermissionError p => str ("[Errno 13] Permission denied: '" +:+ p +:+ "'")
  | JSONDecodeError => str "Expecting value"
  | KeyError k => str ("'" +:+ k +:+ "'")
  | UnicodeEncodeError c start stop =>
      if (stop =? S start)%nat then
        str "'utf-8' codec can't encode character '" ++ u_escape c ++
        str "' in position " ++ decimal start ++ str ": surrogates not allowed"
      else
        str "'utf-8' codec can't encode characters in position " ++ decimal start ++
        str "-" ++ decimal (stop - 1) ++ str ": surrogates not allowed"
  | UnicodeDecodeError message => message
  | ValueError message => str message
  | OSError errno strerror filename =>
      str "[Errno " ++ decimal errno ++
      str ("] " +:+ strerror +:+ ": '" +:+ filename +:+ "'")
  end.

Inductive result (A : Type) :=
| Ok (a : A)
| Raise (e : exn).
Arguments Ok {A} a.
Arguments Raise {A} e.

(** ** Processes and the file system

    A file is named by the path the program spells it with and holds the
    text written to it; a file holds text that UTF-8 can encode.  The
    paths in [denied] are those the host may neither write nor unlink (a
    read-only file, a file in a read-only directory).  A program
    started by [subprocess.run] is a function of its arguments and of the
    files it finds.  Either the call returns, with an exit code and the
    two output streams decoded into text ([text=True]), or it raises
    after the program was handed to the system: [OSError] when the system
    refuses to execute it (an argument list that is too long, a file that
    may not be executed or is no program), [UnicodeDecodeError] when an
    output stream is not valid UTF-8.  Files are left behind either way.
    [subprocess.run] has no timeout here: the caller is blocked until the
    program ends, so a program is taken to end. *)

Record completed := {
  returncode : Z;
  stdout : text;
  stderr : text;
  files_after : gmap string text;
}.

Inductive outcome :=
| Returns (p : completed)
| Raises (e : exn) (files : gmap string text).

Definition program := list text → gmap string text → outcome.

(** What is installed on the machine: the programs found by name on the
    search path, what an executable file does when it is run, and the
    shell at [/bin/sh], if there is one. *)
Record machine := {
  installed : string → option program;
  loader : text → program;
  shell : option program;
}.

(** A preview child started by [QProcess.start].  [start] returns with
    the child in the state [Starting]; that it runs, or failed to start,
    is reported later, from the event loop. *)
Inductive child_state :=
| Starting
| FailedToStart
| Running
| Signalled              (* terminate() was sent, the child has not exited yet *)
| Exited (normal : bool).

Record child := {
  child_code : text;       (* python3 -c child_code *)
  child_state_of : child_state;
}.

(** The child runs, as [QProcess.state] reports it: its start has been
    reported and its end has not. *)
Definition alive (c : child) : bool :=
  match child_state_of c with
  | Running | Signalled => true
  | Starting | FailedToStart | Exited _ => false
  end.

(** The child is an operating-system process: it was forked and has not
    been reported to have ended or to have failed to start. *)
Definition is_process (c : child) : bool :=
  match child_state_of c with
  | Starting | Running | Signalled => true
  | FailedToStart | Exited _ => false
  end.

Record world := {
  (* the widget *)
  run_timer : option nat;              (* ms left until timeout, when active *)
  current : language;                  (* tabs.currentIndex() *)
  code_editors : language → text;
  output_area : text;
  gui_preview : string;
  gui_process : option nat;            (* the child self.gui_process drives *)
  (* the machine *)
  children : list child;               (* every child started, oldest first *)
  fs : gmap string text;
  denied : gset string;                (* paths that may not be written or unlinked *)
  calls : list (list text);            (* argv of every subprocess.run *)
  (* history *)
  dispatched : list (language * text); (* what each run_code read *)
  crashed : option exn;                (* exception that left a slot, if any *)
}.

Definition set_run_timer (t : option nat) (w : world) : world :=
  {| run_timer := t; current := current w; code_editors := code_editors w;
     output_area := output_area w; gui_preview := gui_preview w;
     gui_process := gui_process w; children := children w; fs := fs w;
     denied := denied w; calls := calls w; dispatched := dispatched w;
     crashed := crashed w |}.

Definition set_current (l : language) (w : world) : world :=
  {| run_timer := run_timer w; current := l; code_editors := code_editors w;
     output_area := output_area w; gui_preview := gui_preview w;
     gui_process := gui_process w; children := children w; fs := fs w;
     denied := denied w; calls := calls w; dispatched := dispatched w;
     crashed := crashed w |}.

Definition set_code_editors (e : language → text) (w : world) : world :=
  {| run_timer := run_timer w; current := current w; code_editors := e;
     output_area := output_area w; gui_preview := gui_preview w;
     gui_process := gui_process w; children := children w; fs := fs w;
     denied := denied w; calls := calls w; dispatched := dispatched w;
     crashed := crashed w |}.

Definition set_output_area (t : text) (w : world) : world :=
  {| run_timer := run_timer w; current := current w; code_editors := code_editors w;
     output_area := t; gui_preview := gui_preview w;
     gui_process := gui_process w; children := children w; fs := fs w;
     denied := denied w; calls := calls w; dispatched := dispatched w;
     crashed := crashed w |}.

Definition set_gui_preview (s : string) (w : world) : world :=
  {| run_timer := run_timer w; current := current w; code_editors := code_editors w;
     output_area := output_area w; gui_preview := s;
     gui_process := gui_process w; children := children w; fs := fs w;
     denied := denied w; calls := calls w; dispatched := dispatched w;
     crashed := crashed w |}.

Definition set_gui_process (p : option nat) (w : world) : world :=
  {| run_timer := run_timer w; current := current w; code_editors := code_editors w;
     output_area := output_area w; gui_preview := gui_preview w;
     gui_process := p; children := children w; fs := fs w;
     denied := denied w; calls := calls w; dispatched := dispatched w;
     crashed := crashed w |}.

Definition set_children (cs : list child) (w : world) : world :=
  {| run_timer := run_timer w; current := current w; code_editors := code_editors w;
     output_area := output_area w; gui_preview := gui_preview w;
     gui_process := gui_process w; children := cs; fs := fs w;
     denied := denied w; calls := calls w; dispatched := dispatched w;
     crashed := crashed w |}.

Definition set_fs (f : gmap string text) (w : world) : world :=
  {| run_timer := run_timer w; current := current w; code_editors := code_editors w;
     output_area := output_area w; gui_preview := gui_preview w;
     gui_process := gui_process w; children := children w; fs := f;
     denied := denied w; calls := calls w; dispatched := dispatched w;
     crashed := crashed w |}.

Definition set_calls (cs : list (list text)) (w : world) : world :=
  {| run_timer := run_timer w; current := current w; code_editors := code_editors w;
     output_area := output_area w; gui_preview := gui_preview w;
     gui_process := gui_process w; children := children w; fs := fs w;
     denied := denied w; calls := cs; dispatched := dispatched w;
     crashed := crashed w |}.

Definition set_dispatched (d : list (language * text)) (w : world) : world :=
  {| run_timer := run_timer w; current := current w; code_editors := code_editors w;
     output_area := output_area w; gui_preview := gui_preview w;
     gui_process := gui_process w; children := children w; fs := fs w;
     denied := denied w; calls := calls w; dispatched := d;
     crashed := crashed w |}.

Definition set_crashed (e : option exn) (w : world) : world :=
  {| run_timer := run_timer w; current := current w; code_editors := code_editors w;
     output_area := output_area w; gui_preview := gui_preview w;
     gui_process := gui_process w; children := children w; fs := fs w;
     denied := denied w; calls := calls w; dispatched := dispatched w;
     crashed := e |}.

(** ** Statements that may raise *)

Definition M (A : Type) : Type := world → result A * world.

Definition ret {A} (a : A) : M A := fun w => (Ok a, w).
Definition raise {A} (e : exn) : M A := fun w => (Raise e, w).

Definition bind {A B} (m : M A) (k : A → M B) : M B :=
  fun w =>
    match m w with
    | (Ok a, w') => k a w'
    | (Raise e, w') => (Raise e, w')
    end.

(** [try: m except Exception as e: h e] *)
Definition try_except {A} (m : M A) (h : exn → M A) : M A :=
  fun w =>
    match m w with
    | (Ok a, w') => (Ok a, w')
    | (Raise e, w') => h e w'
    end.

Declare Scope py_scope.
Delimit Scope py_scope with py.
Notation "x <- m ;; k" := (bind m (fun x => k))
  (at level 100, m at next level, right associativity) : py_scope.
Notation "m ;; k" := (bind m (fun _ => k))
  (at level 100, right associativity) : py_scope.
Local Open Scope py_scope.

(** [open(p, "w")]: creates or truncates. *)
Definition open_w (p : string) : M unit :=
  fun w =>
    if decide (p ∈ denied w) then (Raise (PermissionError p), w)
    else (Ok tt, set_fs (<[p := []]> (fs w)) w).

(** The one [write] made to a file open for writing, then its close.
    The text is encoded first: when it cannot be, nothing is written and
    the file stays as [open] left it. *)
Definition write (p : string) (t : text) : M unit :=
  fun w =>
    match utf8_error false 0 t with
    | Some (c, start, stop) => (Raise (UnicodeEncodeError c start stop), w)
    | None => (Ok tt, set_fs (<[p := t]> (fs w)) w)
    end.

(** [open(p, "r")] and [read()]. *)
Definition read (p : string) : M text :=
  fun w =>
    match fs w !! p with
    | Some t => (Ok t, w)
    | None => (Raise (FileNotFoundError p), w)
    end.

(** [os.path.exists(p)] *)
Definition path_exists (p : string) : M bool :=
  fun w => (Ok (bool_decide (is_Some (fs w !! p))), w).

(** [os.remove(p)] *)
Definition remove (p : string) : M unit :=
  fun w =>
    match fs w !! p with
    | None => (Raise (FileNotFoundError p), w)
    | Some _ =>
        if decide (p ∈ denied w) then (Raise (PermissionError p), w)
        else (Ok tt, set_fs (delete p (fs w)) w)
    end.

(** [json.load(open(p))] *)
Definition json_load (p : string) : M pydict :=
  t <- read p ;;
  match json_loads t with
  | Some d => ret d
  | None => raise JSONDecodeError
  end.

(** [d[k]] *)
Definition getitem (d : pydict) (k : string) : M text :=
  match dict_get (str k) d with
  | Some v => ret v
  | None => raise (KeyError k)
  end.

(** ** subprocess.run *)

Fixpoint has_slash (s : string) : bool :=
  match s with
  | EmptyString => false
  | String a s' => Ascii.eqb a "/"%char || has_slash s'
  end.

(** The conversion of the argument list, before anything is started:
    each argument in turn is encoded for the file system and then must
    hold no NUL. *)
Fixpoint argv_error (argv : list text) : option exn :=
  match argv with
  | [] => None
  | a :: argv' =>
      match utf8_error true 0 a with
      | Some (c, start, stop) => Some (UnicodeEncodeError c start stop)
      | None =>
          if existsb (N.eqb 0) a then Some (ValueError "embedded null byte")
          else argv_error argv'
      end
  end.

(** [subprocess.run(argv, capture_output=True, text=True)], [found]
    being the program [argv[0]] names, if any. *)
Definition subprocess_run (prog : string) (found : option program) (args : list text)
  : M completed :=
  fun w =>
    let w1 := set_calls (calls w ++ [str prog :: args]) w in
    match argv_error (str prog :: args) with
    | Some e => (Raise e, w1)
    | None =>
        match found with
        | None => (Raise (FileNotFoundError prog), w1)
        | Some f =>
            match f args (fs w1) with
            | Returns r => (Ok r, set_fs (files_after r) w1)
            | Raises e files => (Raise e, set_fs files w1)
            end
        end
    end.

Section Machine.

Context (mc : machine).

(** How [execvp] finds the program to run: a name with a slash is a
    file, any other name is looked up on the search path. *)
Definition resolve (name : string) (w : world) : option program :=
  if has_slash name then loader mc <$> fs w !! name
  else installed mc name.

(** [subprocess.run([prog] + args, capture_output=True, text=True)], and
    [subprocess.run(prog, ...)] for a lone program name: no shell is
    involved, [prog] as a whole is the name of the program. *)
Definition run_argv (prog : string) (args : list text) : M completed :=
  fun w => subprocess_run prog (resolve prog w) args w.

(** [subprocess.run(cmd, shell=True, capture_output=True, text=True)]:
    the program started is [/bin/sh], with [-c] and the command line as
    its arguments.  What becomes of the command is the business of the
    shell. *)
Definition run_shell (cmd : string) : M completed :=
  subprocess_run "/bin/sh" (shell mc) [str "-c"; str cmd].

(** [process.stdout if process.returncode == 0 else process.stderr] *)
Definition output_of (p : completed) : text :=
  if (returncode p =? 0)%Z then stdout p else stderr p.

(** ** AppStack *)

Definition save_code (language : language) (code : text) : M string :=
  let filename := path_join TEMP_DIR ("temp_code_" +:+ lang_name language +:+ ".json") in
  open_w filename ;;
  write filename (json_dumps [(str "language", str (lang_name language)); (str "code", code)]) ;;
  ret filename.

(** The path the compiled program is run from and deleted at. *)
Definition binary_name (language : language) : string :=
  match language with
  | Rust => "./temp_code"
  | _ => path_join TEMP_DIR "temp_exec"
  end.

(** The source file [execute_code] writes for a language; the Python
    branch writes none. *)
Definition source_name (language : language) : string :=
  match language with
  | Python => ""
  | C => path_join TEMP_DIR "temp_code.c"
  | Cpp => path_join TEMP_DIR "temp_code.cpp"
  | Rust => path_join TEMP_DIR "temp_code.rs"
  | Go => path_join TEMP_DIR "temp_code.go"
  end.

(** [with open(filename, "w") as file:
       file.write(json.load(open(code_file))["code"])] *)
Definition write_source (filename code_file : string) : M unit :=
  open_w filename ;;
  code_data <- json_load code_file ;;
  code <- getitem code_data "code" ;;
  write filename code.

Definition execute_body (language : language) (code_file : string) : M text :=
  match language with
  | Python =>
      code_data <- json_load code_file ;;
      code <- getitem code_data "code" ;;
      process <- run_argv (language_cmds language) [str "-c"; code] ;;
      ret (output_of process)
  | C | Cpp =>
      let filename := source_name language in
      let binary_name := binary_name language in
      write_source filename code_file ;;
      let compile_cmd :=
        language_cmds language +:+ " " +:+ filename +:+ " -o " +:+ binary_name in
      compile_process <- run_shell compile_cmd ;;
      output <-
        (if (returncode compile_process =? 0)%Z then
           run_process <- run_shell binary_name ;;
           ret (output_of run_process)
         else ret (stderr compile_process)) ;;
      present <- path_exists binary_name ;;
      (if present then remove binary_name else ret tt) ;;
      ret output
  | Rust =>
      let filename := source_name language in
      write_source filename code_file ;;
      compile_process <- run_argv "rustc" [str filename] ;;
      if (returncode compile_process =? 0)%Z then
        run_process <- run_argv "./temp_code" [] ;;
        let output := output_of run_process in
        remove "./temp_code" ;;
        ret output
      else ret (stderr compile_process)
  | Go =>
      let filename := source_name language in
      write_source filename code_file ;;
      process <- run_argv (language_cmds language) [str filename] ;;
      ret (output_of process)
  end.

Definition execute_code (language : language) (code_file : string) : M text :=
  try_except (execute_body language code_file) (fun e => ret (exn_str e)).

(** [self.gui_process.state() == QProcess.ProcessState.Running]: the
    start of the child has been reported and its end has not.  A child
    that is still starting is not in that state. *)
Definition gui_process_running (w : world) : bool :=
  match gui_process w with
  | Some i =>
      match children w !! i with
      | Some c => alive c
      | None => false
      end
  | None => false
  end.

(** [self.gui_process.terminate()]: the child is asked to end; it ends
    when it does. *)
Definition terminate (w : world) : world :=
  match gui_process w with
  | Some i =>
      match children w !! i with
      | Some c =>
          set_children
            (<[i := {| child_code := child_code c; child_state_of := Signalled |}]>
               (children w)) w
      | None => w
      end
  | None => w
  end.

Definition run_gui_preview (code : text) : M unit :=
  fun w =>
    let w1 := if gui_process_running w then terminate w else w in
    let started := {| child_code := code; child_state_of := Starting |} in
    (Ok tt,
     set_gui_process (Some (length (children w1)))
       (set_children (children w1 ++ [started]) w1)).

(** The test of [run_code] that sends a text to the preview. *)
Definition wants_preview (current_lang : language) (code : text) : bool :=
  bool_decide (current_lang = Python) &&
  (contains (str "Tkinter") code || contains (str "PyQt6") code).

Definition run_code : M unit :=
  fun w =>
    let w := set_run_timer None w in
    let current_lang := current w in
    let code := code_editors w current_lang in
    let w := set_dispatched (dispatched w ++ [(current_lang, code)]) w in
    (code_file <- save_code current_lang code ;;
     if wants_preview current_lang code then run_gui_preview code
     else
       output <- execute_code current_lang code_file ;;
       fun w => (Ok tt, set_output_area output w)) w.

End Machine.

Definition on_code_change (w : world) : world :=
  set_run_timer (Some 1500%nat) w.

Definition clear_output (w : world) : world :=
  let w := set_output_area [] w in
  if gui_process_running w then terminate w else w.

(** [self.gui_process.exitStatus()]: [true] for [NormalExit], which is
    also what a process that has not ended reports. *)
Definition exit_status (w : world) : bool :=
  match gui_process w with
  | Some i =>
      match children w !! i with
      | Some c =>
          match child_state_of c with
          | Exited normal => normal
          | _ => true
          end
      | None => true
      end
  | None => true
  end.

Definition on_gui_finished (w : world) : world :=
  if exit_status w then set_gui_preview "GUI Preview Finished" w
  else set_gui_preview "Error in GUI code." w.

(** ** PythonHighlighter

    The two formats of [__init__], by their foreground colour. *)

Inductive char_format := keyword_format | string_format.

Definition foreground (f : char_format) : string :=
  match f with
  | keyword_format => "#ff79c6"
  | string_format => "#f1fa8c"
  end.

Definition keywords : list string :=
  ["def"; "class"; "import"; "from"; "for"; "while"; "if"; "else"; "elif";
   "return"; "try"; "except"].

(** The regular expressions [__init__] compiles: a keyword between two
    word boundaries, and a quote, as few characters as possible, the same
    quote. *)
Inductive pattern :=
| Word (keyword : text)
| Quoted (quote : N).

Definition rules : list (pattern * char_format) :=
  ((λ keyword, (Word (str keyword), keyword_format)) <$> keywords) ++
  [(Quoted 34, string_format); (Quoted 39, string_format)].

(** The character before position [i] of a text, if any. *)
Definition char_before (s : text) (i : nat) : option N :=
  match i with
  | O => None
  | S j => s !! j
  end.

Section Highlighter.

(** The word characters of [re], the class written [\w]: letters,
    digits and the underscore, in the whole of Unicode. *)
Context (word : N → bool).

Definition is_word (o : option N) : bool :=
  match o with
  | Some c => word c
  | None => false
  end.

(** A word boundary between two neighbours, either of which may be
    missing at an end of the text: one is a word character, the other is
    not. *)
Definition boundary (prev next : option N) : bool :=
  xorb (is_word prev) (is_word next).

(** The keyword pattern matches at the head of [s], [prev] being the
    character before it. *)
Definition word_match (keyword : text) (prev : option N) (s : text) : bool :=
  boundary prev (head s) &&
  starts_with keyword s &&
  boundary (from_option Some prev (last keyword)) (head (drop (length keyword) s)).

(** [pattern.finditer(text)] for a keyword: the spans of the matches
    from left to right, the search going on where a match ends.  [s] is
    the text from position [i] on, [prev] the character before it, and
    [skip] the number of characters of [s] inside the match just found. *)
Fixpoint finditer_word (keyword : text) (prev : option N) (i skip : nat) (s : text)
  : list (nat * nat) :=
  match s with
  | [] => []
  | c :: s' =>
      match skip with
      | S k => finditer_word keyword (Some c) (S i) k s'
      | O =>
          if word_match keyword prev s
          then (i, i + length keyword)%nat ::
               finditer_word keyword (Some c) (S i) (length keyword - 1) s'
          else finditer_word keyword (Some c) (S i) 0 s'
      end
  end.

(** After an opening quote: the number of characters before the next
    quote, when no line break comes first (the dot does not match a line
    break). *)
Fixpoint closing (quote : N) (s : text) : option nat :=
  match s with
  | [] => None
  | c :: s' =>
      if c =? quote then Some O
      else if c =? 10 then None
      else S <$> closing quote s'
  end.

(** [pattern.finditer(text)] for a quoted string. *)
Fixpoint finditer_quoted (quote : N) (i skip : nat) (s : text) : list (nat * nat) :=
  match s with
  | [] => []
  | c :: s' =>
      match skip with
      | S k => finditer_quoted quote (S i) k s'
      | O =>
          if c =? quote then
            match closing quote s' with
            | Some k => (i, i + k + 2)%nat :: finditer_quoted quote (S i) (S k) s'
            | None => finditer_quoted quote (S i) 0 s'
            end
          else finditer_quoted quote (S i) 0 s'
      end
  end.

Definition finditer (p : pattern) (text : text) : list (nat * nat) :=
  match p with
  | Word keyword => finditer_word keyword None 0 0 text
  | Quoted quote => finditer_quoted quote 0 0 text
  end.

(** [highlightBlock]: the calls [setFormat(start, count, format)] it
    makes, in order. *)
Definition highlightBlock (text : text) : list (nat * nat * char_format) :=
  flat_map
    (λ '(pattern, char_format),
       (λ '(start, end_), (start, end_ - start, char_format)%nat) <$> finditer pattern text)
    rules.

End Highlighter.

(** What [setFormat] leaves at a position of the block: the format of
    the last call whose range holds the position. *)
Definition format_at (calls : list (nat * nat * char_format)) (p : nat)
  : option char_format :=
  foldl (λ acc '(start, count, f),
           if (start <=? p)%nat && (p <? start + count)%nat then Some f else acc)
        None calls.

(** The word characters within ASCII. *)
Definition ascii_word (c : N) : bool :=
  ((48 <=? c) && (c <=? 57)) || ((65 <=? c) && (c <=? 90)) ||
  ((97 <=? c) && (c <=? 122)) || (c =? 95).

(** ** The event loop

    What reaches the widget: a change of an editor's document, the
    selection of a tab, a click on the clear button, the end of a preview
    child, time passing with nothing else happening, and the report that
    a preview child has started or has failed to. *)

Inductive event :=
| TextChanged (l : language) (t : text)
| TabSelected (l : language)
| ClearClicked
| ChildExited (i : nat) (normal : bool)
| Idle (ms : nat)
| ChildStarted (i : nat).

Section Loop.

Context (mc : machine).

(** A slot that raises ends the host. *)
Definition call_slot (slot : M unit) (w : world) : world :=
  match slot w with
  | (Ok _, w') => w'
  | (Raise e, w') => set_crashed (Some e) w'
  end.

(** One millisecond.  The timer is not single-shot: at its timeout it is
    armed again for a full interval and then calls its slot. *)
Definition tick (w : world) : world :=
  match crashed w with
  | Some _ => w
  | None =>
      match run_timer w with
      | None => w
      | Some (S (S r)) => set_run_timer (Some (S r)) w
      | Some _ => call_slot (run_code mc) (set_run_timer (Some 1500%nat) w)
      end
  end.

(** The start of child [i] is reported: it runs where there is a
    [python3] to execute, and has failed to start where there is none.
    No slot of the widget is connected to either report. *)
Definition child_started (i : nat) (w : world) : world :=
  match children w !! i with
  | Some c =>
      match child_state_of c with
      | Starting =>
          set_children
            (<[i := {| child_code := child_code c;
                       child_state_of :=
                         match installed mc "python3" with
                         | Some _ => Running
                         | None => FailedToStart
                         end |}]> (children w)) w
      | _ => w
      end
  | None => w
  end.

(** The end of child [i], reported through its [finished] signal; the
    start of a child is reported before its end. *)
Definition child_exit (i : nat) (normal : bool) (w : world) : world :=
  match children w !! i with
  | Some c =>
      if alive c then
        on_gui_finished
          (set_children
             (<[i := {| child_code := child_code c;
                        child_state_of := Exited normal |}]> (children w)) w)
      else w
  | None => w
  end.

Definition handle (e : event) (w : world) : world :=
  match crashed w with
  | Some _ => w
  | None =>
      match e with
      | TextChanged l t =>
          on_code_change
            (set_code_editors (fun l' => if decide (l' = l) then t else code_editors w l') w)
      | TabSelected l => set_current l w
      | ClearClicked => clear_output w
      | ChildExited i normal => child_exit i normal w
      | Idle ms => Nat.iter ms tick w
      | ChildStarted i => child_started i w
      end
  end.

Definition run_events (es : list event) (w : world) : world :=
  foldl (fun w e => handle e w) w es.

End Loop.

(** The widget as [__init__] leaves it, on a machine with the files
    [files]. *)
Definition init (files : gmap string text) (locked : gset string) : world :=
  {| run_timer := None; current := Python; code_editors := fun _ => [];
     output_area := []; gui_preview := "GUI Preview (for Tkinter and PyQt6 apps)";
     gui_process := None; children := []; fs := files; denied := locked;
     calls := []; dispatched := []; crashed := None |}.

(** ** A machine to run examples on

    [python3] prints its arguments back; an argument of more than 131071
    characters is more than the system takes.  [gcc], [g++] and [rustc]
    accept a source that starts with the letter [o] and leave the source
    text as the binary; any other source is an error.  A binary prints
    its text, unless the second letter is [x]: then it fails with code 3;
    or [u]: then it prints a byte that is not UTF-8.  The Go toolchain is
    there under its name, [go].  The shell splits a command line of plain
    words at the spaces and runs the command it names; a command it
    cannot find makes it exit with code 127 and a message on its error
    stream, worded as [dash] words it. *)

Definition echo_program (name : string) : program :=
  fun args files =>
    if existsb (λ a, 131071 <? N.of_nat (length a)) args
    then Raises (OSError 7 "Argument list too long" name) files
    else
      Returns {| returncode := 0; stdout := concat args; stderr := [];
                 files_after := files |}.

Definition toy_compiler (src out : string) : program :=
  fun _ files =>
    match files !! src with
    | Some (c :: t) =>
        if c =? 111 then
          Returns {| returncode := 0; stdout := []; stderr := [];
                     files_after := <[out := c :: t]> files |}
        else
          Returns {| returncode := 1; stdout := []; stderr := str "error: " ++ c :: t;
                     files_after := files |}
    | _ =>
        Returns {| returncode := 1; stdout := []; stderr := str "error: no input";
                   files_after := files |}
    end.

Definition toy_binary (t : text) : program :=
  fun _ files =>
    match t with
    | _ :: 120 :: _ =>
        Returns {| returncode := 3; stdout := []; stderr := str "failed";
                   files_after := files |}
    | _ :: 117 :: _ =>
        Raises
          (UnicodeDecodeError
             (str "'utf-8' codec can't decode byte 0xe9 in position 0: invalid continuation byte"))
          files
    | _ =>
        Returns {| returncode := 0; stdout := t; stderr := []; files_after := files |}
    end.

Definition toy_installed (name : string) : option program :=
  if decide (name = "python3") then Some (echo_program "python3")
  else if decide (name = "go") then Some (echo_program "go")
  else if decide (name = "gcc") then
    Some (toy_compiler "appstack_temp/temp_code.c" "appstack_temp/temp_exec")
  else if decide (name = "g++") then
    Some (toy_compiler "appstack_temp/temp_code.cpp" "appstack_temp/temp_exec")
  else if decide (name = "rustc") then
    Some (toy_compiler "appstack_temp/temp_code.rs" "./temp_code")
  else None.

Fixpoint unstr (t : text) : string :=
  match t with
  | [] => EmptyString
  | c :: t' => String (Ascii.ascii_of_N c) (unstr t')
  end.

(** The words of a shell command line made of plain words and spaces;
    [cur] is the word read so far. *)
Fixpoint split_words (cur s : string) : list string :=
  match s with
  | EmptyString => if decide (cur = "") then [] else [cur]
  | String a s' =>
      if Ascii.eqb a " "%char then
        if decide (cur = "") then split_words "" s'
        else cur :: split_words "" s'
      else split_words (cur +:+ String a "") s'
  end.

Definition toy_shell : program :=
  fun args files =>
    match args with
    | [_; cmd] =>
        match split_words "" (unstr cmd) with
        | [] =>
            Returns {| returncode := 0; stdout := []; stderr := [];
                       files_after := files |}
        | name :: words =>
            match (if has_slash name then toy_binary <$> files !! name
                   else toy_installed name) with
            | None =>
                Returns {| returncode := 127; stdout := [];
                           stderr := str ("/bin/sh: 1: " +:+ name +:+ ": not found") ++ [10];
                           files_after := files |}
            | Some f => f (str <$> words) files
            end
        end
    | _ =>
        Returns {| returncode := 2; stdout := []; stderr := []; files_after := files |}
    end.

Definition toy_machine : machine :=
  {| installed := toy_installed; loader := toy_binary; shell := Some toy_shell |}.

(** A machine with no toolchain at all, and no shell. *)
Definition bare_machine : machine :=
  {| installed := λ _, None; loader := toy_binary; shell := None |}.

(** The widget with [l] selected and [t] in every editor, on a machine
    with no file yet and [locked] as the paths that cannot be written. *)
Definition example_world (l : language) (t : text) (locked : gset string) : world :=
  set_current l (set_code_editors (λ _, t) (init ∅ locked)).

(** ** Vocabulary of the statements *)

(** The descriptor file of a language. *)
Definition descriptor (l : language) : string :=
  path_join TEMP_DIR ("temp_code_" +:+ lang_name l +:+ ".json").

(** [code_file] holds a document whose [code] member is [code]. *)
Definition staged (w : world) (code_file : string) (code : text) : Prop :=
  ∃ t d, fs w !! code_file = Some t ∧ json_loads t = Some d ∧
         dict_get (str "code") d = Some code.

(** The world once the source file of a language holds [code]. *)
Definition with_source (l : language) (code : text) (w : world) : world :=
  set_fs (<[source_name l := code]> (fs w)) w.

(** The compile step of [execute_code] for a compiled language. *)
Definition compile_argv (l : language) : list text :=
  match l with
  | Rust => [str "rustc"; str (source_name Rust)]
  | _ =>
      [str "/bin/sh"; str "-c";
       str (language_cmds l +:+ " " +:+ source_name l +:+ " -o " +:+ binary_name l)]
  end.

Definition compile_step (mc : machine) (l : language) : M completed :=
  match l with
  | Rust => run_argv mc "rustc" [str (source_name Rust)]
  | _ =>
      run_shell mc
        (language_cmds l +:+ " " +:+ source_name l +:+ " -o " +:+ binary_name l)
  end.

Definition compiled (l : language) : Prop := l = C ∨ l = Cpp ∨ l = Rust.

(** The run step of [execute_code] for a compiled language. *)
Definition run_argv_of (l : language) : list text :=
  match l with
  | Rust => [str "./temp_code"]
  | _ => [str "/bin/sh"; str "-c"; str (binary_name l)]
  end.

Definition run_step (mc : machine) (l : language) : M completed :=
  match l with
  | Rust => run_argv mc "./temp_code" []
  | _ => run_shell mc (binary_name l)
  end.

(** A path inside the scratch directory. *)
Definition in_scratch (p : string) : bool := String.prefix (TEMP_DIR +:+ "/") p.

(** [w'] differs from [w] in the files and in the record of the
    [subprocess.run] calls only. *)
Definition machine_only (w w' : world) : Prop :=
  w' = set_calls (calls w') (set_fs (fs w') w).

(** A statement that changes the files and the record of calls only. *)
Definition frames {A} (m : M A) : Prop := ∀ w, machine_only w (m w).2.

(** The widget once [run_code] has stopped the timer and read the active
    buffer. *)
Definition fired (w : world) : world :=
  set_dispatched (dispatched w ++ [(current w, code_editors w (current w))])
    (set_run_timer None w).

(** The document [save_code] writes. *)
Definition descriptor_text (l : language) (code : text) : text :=
  json_dumps [(str "language", str (lang_name l)); (str "code", code)].

(** The timeout of the timer: it is armed again and calls [run_code]. *)
Definition fire (mc : machine) (w : world) : world :=
  call_slot (run_code mc) (set_run_timer (Some 1500%nat) w).

(** A run of events in which the timer never runs out: [since] is the
    time since the last change of a document, and it stays below the
    interval. *)
Fixpoint burst (since : nat) (es : list event) : Prop :=
  match es with
  | [] => True
  | Idle d :: es' => (since + d < 1500)%nat ∧ burst (since + d) es'
  | TextChanged _ _ :: es' => burst 0 es'
  | _ :: es' => burst since es'
  end.

(** A text [write] can encode, and the exception it raises on one it
    cannot. *)
Definition encode_error (t : text) : option exn :=
  match utf8_error false 0 t with
  | Some (c, start, stop) => Some (UnicodeEncodeError c start stop)
  | None => None
  end.

Definition encodable (t : text) : Prop := encode_error t = None.

(** A change of a document, the one event that arms the timer. *)
Definition is_change (e : event) : bool :=
  match e with
  | TextChanged _ _ => true
  | _ => false
  end.

(** The dispatches waiting for the timer: one when it is armed. *)
Definition pending (w : world) : nat :=
  match run_timer w with
  | Some _ => 1
  | None => 0
  end.

(** The calls [highlightBlock] makes for the keyword rules, and those it
    makes for the two string rules, which come after them. *)
Definition keyword_calls (word : N → bool) (text : text) : list (nat * nat * char_format) :=
  flat_map
    (λ keyword,
       (λ '(start, end_), (start, end_ - start, keyword_format)%nat) <$>
       finditer_word word (str keyword) None 0 0 text)
    keywords.

Definition string_calls (text : text) : list (nat * nat * char_format) :=
  ((λ '(start, end_), (start, end_ - start, string_format)%nat) <$>
   finditer_quoted 34 0 0 text) ++
  ((λ '(start, end_), (start, end_ - start, string_format)%nat) <$>
   finditer_quoted 39 0 0 text).

(** A call whose range holds position [p]. *)
Definition covers (p : nat) (call : nat * nat * char_format) : bool :=
  (call.1.1 <=? p)%nat && (p <? call.1.1 + call.1.2)%nat.

(** A call made with the string format. *)
Definition string_call (call : nat * nat * char_format) : bool :=
  match call.2 with
  | string_format => true
  | keyword_format => false
  end.

(** * Properties *)

(** ** Substring test *)

Lemma starts_with_spec (needle hay : text) :
  starts_with needle hay = true ↔ ∃ post, hay = needle ++ post.
Proof.
  revert hay. induction needle as [|a needle IH]; intros hay; simpl.
  - split; [intros _; by exists hay | done].
  - destruct hay as [|b hay].
    + split; [done | intros [post Hp]; discriminate].
    + rewrite andb_true_iff, N.eqb_eq, IH. split.
      * intros [-> [post ->]]. by exists post.
      * intros [post Hp]. injection Hp as -> ->. eauto.
Qed.

Lemma contains_spec (needle hay : text) :
  contains needle hay = true ↔ ∃ pre post, hay = pre ++ needle ++ post.
Proof.
  induction hay as [|b hay IH].
  - simpl. rewrite orb_false_r, starts_with_spec. split.
    + intros [post ->]. by exists [], post.
    + intros [pre [post Hp]]. destruct pre; [by exists post | discriminate].
  - cbn [contains]. rewrite orb_true_iff, starts_with_spec, IH. split.
    + intros [[post ->] | [pre [post ->]]].
      * by exists [], post.
      * by exists (b :: pre), post.
    + intros [[|x pre] [post Hp]].
      * left. by exists post.
      * right. injection Hp as -> ->. by exists pre, post.
Qed.

(** ** The descriptor round trip *)

Lemma hex_value_digit (d : N) : d < 16 → hex_value (hex_digit d) = Some d.
Proof.
  intros Hd.
  assert (d = 0 ∨ d = 1 ∨ d = 2 ∨ d = 3 ∨ d = 4 ∨ d = 5 ∨ d = 6 ∨ d = 7 ∨
          d = 8 ∨ d = 9 ∨ d = 10 ∨ d = 11 ∨ d = 12 ∨ d = 13 ∨ d = 14 ∨ d = 15)
    as Hcases by lia.
  repeat (destruct Hcases as [-> | Hcases]; [reflexivity |]).
  by subst.
Qed.

Lemma hex_digits_value (n : N) :
  n < 0x10000 →
  (((n / 4096 mod 16) * 16 + n / 256 mod 16) * 16 + n / 16 mod 16) * 16 + n mod 16 = n.
Proof.
  intros Hn.
  assert (n / 16 / 16 = n / 256) as H2 by (rewrite N.Div0.div_div; reflexivity).
  assert (n / 256 / 16 = n / 4096) as H3 by (rewrite N.Div0.div_div; reflexivity).
  pose proof (N.div_mod n 16). pose proof (N.div_mod (n / 16) 16).
  pose proof (N.div_mod (n / 256) 16).
  assert (n / 4096 < 16) by (apply N.Div0.div_lt_upper_bound; lia).
  rewrite (N.mod_small (n / 4096) 16) by done.
  lia.
Qed.

Lemma decode_u_escape (n : N) (tail : text) :
  n < 0x10000 →
  ∃ h1 h2 h3 h4,
    u_escape n ++ tail = 92 :: 117 :: h1 :: h2 :: h3 :: h4 :: tail ∧
    decode_uXXXX h1 h2 h3 h4 = Some n.
Proof.
  intros Hn. eexists _, _, _, _. split; [reflexivity |].
  unfold decode_uXXXX.
  rewrite !hex_value_digit by (apply N.mod_lt; done). simpl.
  by rewrite hex_digits_value.
Qed.

Lemma land_high_low (a b k : N) : b < 2 ^ k → N.land (a * 2 ^ k) b = 0.
Proof.
  intros Hb. apply N.bits_inj_0. intros i. rewrite N.land_spec.
  destruct (N.lt_ge_cases i k) as [Hi | Hi].
  - by rewrite N.mul_pow2_bits_low.
  - rewrite <- (N.mod_small b (2 ^ k)) by done.
    rewrite N.mod_pow2_bits_high by done. apply andb_false_r.
Qed.

Lemma lor_high_low (a b k : N) : b < 2 ^ k → N.lor (a * 2 ^ k) b = a * 2 ^ k + b.
Proof.
  intros Hb. rewrite N.add_nocarry_lxor by by apply land_high_low.
  symmetry. apply N.lxor_lor. by apply land_high_low.
Qed.

(** The two halves [escape_char] writes for a code point above the
    basic plane. *)
Lemma surrogates_of (c : N) :
  0x10000 ≤ c → c < 0x110000 →
  N.lor 0xd800 (N.land (N.shiftr (c - 0x10000) 10) 0x3ff) = 0xd800 + (c - 0x10000) / 1024 ∧
  N.lor 0xdc00 (N.land (c - 0x10000) 0x3ff) = 0xdc00 + (c - 0x10000) mod 1024 ∧
  (c - 0x10000) / 1024 < 1024.
Proof.
  intros Hlo Hhi. set (n := c - 0x10000).
  assert (n < 1048576) as Hn by (unfold n; lia).
  assert (n / 1024 < 1024) as Hq by (apply N.Div0.div_lt_upper_bound; lia).
  change 0x3ff with (N.ones 10). rewrite !N.land_ones, N.shiftr_div_pow2.
  change (2 ^ 10) with 1024. rewrite (N.mod_small (n / 1024)) by done.
  change 0xd800 with (54 * 2 ^ 10). change 0xdc00 with (55 * 2 ^ 10).
  rewrite !lor_high_low.
  - done.
  - change (2 ^ 10) with 1024. apply N.mod_lt. lia.
  - exact Hq.
Qed.

Lemma merge_surrogates (c : N) :
  0x10000 ≤ c → c < 0x110000 →
  0x10000 + N.lor (N.shiftl (0xd800 + (c - 0x10000) / 1024 - 0xd800) 10)
                  (0xdc00 + (c - 0x10000) mod 1024 - 0xdc00) = c.
Proof.
  intros Hlo Hhi.
  rewrite (N.add_comm 0xd800), (N.add_comm 0xdc00), !N.add_sub.
  rewrite N.shiftl_mul_pow2, lor_high_low by (apply N.mod_lt; discriminate).
  change (2 ^ 10) with 1024. pose proof (N.div_mod (c - 0x10000) 1024). lia.
Qed.

Lemma high_half_range (q : N) :
  q < 1024 →
  0xd800 + q < 0x10000 ∧ high_surrogate (0xd800 + q) = true ∧
  low_surrogate (0xd800 + q) = false.
Proof.
  intros Hq. unfold high_surrogate, low_surrogate. split; [lia |]. split.
  - apply andb_true_iff. split; apply N.leb_le; lia.
  - apply andb_false_iff. left. apply N.leb_gt. lia.
Qed.

Lemma low_half_range (r : N) :
  r < 1024 → 0xdc00 + r < 0x10000 ∧ low_surrogate (0xdc00 + r) = true.
Proof.
  intros Hr. unfold low_surrogate. split; [lia |].
  apply andb_true_iff. split; apply N.leb_le; lia.
Qed.

Lemma scanstring_u (h1 h2 h3 h4 uni : N) (s3 : text) :
  decode_uXXXX h1 h2 h3 h4 = Some uni →
  (high_surrogate uni = true → low_escape_ahead s3 = false) →
  scanstring (92 :: 117 :: h1 :: h2 :: h3 :: h4 :: s3) = consume uni (scanstring s3).
Proof.
  intros Hd Hs. cbn [scanstring]. change (92 =? 34) with false.
  change (92 =? 92) with true. change (117 =? 117) with true. cbv iota.
  rewrite Hd. destruct (high_surrogate uni); [| done].
  specialize (Hs eq_refl).
  destruct s3 as [|b [|u s4]]; [done | done |].
  unfold low_escape_ahead in Hs.
  destruct ((b =? 92) && (u =? 117)); [| done].
  destruct s4 as [|g1 [|g2 [|g3 [|g4 s5]]]]; try done.
  destruct (decode_uXXXX g1 g2 g3 g4); [| done].
  simpl in Hs. by rewrite Hs.
Qed.

Lemma scanstring_pair (h1 h2 h3 h4 g1 g2 g3 g4 hi lo : N) (s5 : text) :
  decode_uXXXX h1 h2 h3 h4 = Some hi → high_surrogate hi = true →
  decode_uXXXX g1 g2 g3 g4 = Some lo → low_surrogate lo = true →
  scanstring (92 :: 117 :: h1 :: h2 :: h3 :: h4 :: 92 :: 117 :: g1 :: g2 :: g3 :: g4 :: s5) =
  consume (0x10000 + N.lor (N.shiftl (hi - 0xd800) 10) (lo - 0xdc00)) (scanstring s5).
Proof.
  intros Hh Hhi Hg Hlo. cbn [scanstring]. change (92 =? 34) with false.
  change (92 =? 92) with true. change (117 =? 117) with true. cbv iota.
  rewrite Hh, Hhi. cbn [andb]. by rewrite Hg, Hlo.
Qed.

Lemma scanstring_escape_char (c : N) (tail : text) :
  code_point c →
  (high_surrogate c = true → low_escape_ahead tail = false) →
  scanstring (escape_char c ++ tail) = consume c (scanstring tail).
Proof.
  intros Hc Hs. unfold escape_char.
  repeat match goal with
  | |- context [if ?x =? ?k then _ else _] =>
      destruct (N.eqb_spec x k) as [-> | ?]; [reflexivity |]
  end.
  destruct ((32 <=? c) && (c <=? 126)) eqn:Hp.
  { cbn [app scanstring].
    rewrite (proj2 (N.eqb_neq c 34)), (proj2 (N.eqb_neq c 92)) by done.
    apply andb_true_iff in Hp as [Hp _]. apply N.leb_le in Hp.
    by rewrite (proj2 (N.ltb_ge c 32)). }
  destruct (N.ltb_spec c 0x10000) as [Hlt | Hge].
  { destruct (decode_u_escape c tail Hlt) as (h1 & h2 & h3 & h4 & -> & Hd).
    by apply scanstring_u. }
  cbv zeta. unfold code_point in Hc.
  destruct (surrogates_of c Hge Hc) as (-> & -> & Hq).
  assert ((c - 0x10000) mod 1024 < 1024) as Hr by (apply N.mod_lt; discriminate).
  destruct (high_half_range _ Hq) as (Hhb & Hhi & _).
  destruct (low_half_range _ Hr) as (Hlb & Hlo).
  rewrite <- app_assoc.
  destruct (decode_u_escape (0xd800 + (c - 0x10000) / 1024)
              (u_escape (0xdc00 + (c - 0x10000) mod 1024) ++ tail) Hhb)
    as (h1 & h2 & h3 & h4 & -> & Hd).
  destruct (decode_u_escape (0xdc00 + (c - 0x10000) mod 1024) tail Hlb)
    as (g1 & g2 & g3 & g4 & -> & Hg).
  rewrite (scanstring_pair _ _ _ _ _ _ _ _ _ _ tail Hd Hhi Hg Hlo).
  by rewrite merge_surrogates.
Qed.

Lemma low_escape_ahead_escape_char (d : N) (tail : text) :
  code_point d →
  low_surrogate d = false →
  low_escape_ahead (escape_char d ++ tail) = false.
Proof.
  intros Hc Hlow. unfold escape_char.
  repeat match goal with
  | |- context [if ?x =? ?k then _ else _] =>
      destruct (N.eqb_spec x k) as [-> | ?]; [reflexivity |]
  end.
  destruct ((32 <=? d) && (d <=? 126)) eqn:Hp.
  { cbn [app low_escape_ahead]. destruct tail; [done |].
    by rewrite (proj2 (N.eqb_neq d 92)). }
  destruct (N.ltb_spec d 0x10000) as [Hlt | Hge].
  { destruct (decode_u_escape d tail Hlt) as (h1 & h2 & h3 & h4 & -> & Hd).
    cbn [low_escape_ahead]. by rewrite Hd. }
  cbv zeta. unfold code_point in Hc.
  destruct (surrogates_of d Hge Hc) as (-> & -> & Hq).
  destruct (high_half_range _ Hq) as (Hhb & _ & Hnl).
  rewrite <- app_assoc.
  destruct (decode_u_escape (0xd800 + (d - 0x10000) / 1024)
              (u_escape (0xdc00 + (d - 0x10000) mod 1024) ++ tail) Hhb)
    as (h1 & h2 & h3 & h4 & -> & Hd).
  cbn [low_escape_ahead]. by rewrite Hd.
Qed.

Lemma scanstring_escaped (s rest : text) :
  editor_text s →
  scanstring (flat_map escape_char s ++ 34 :: rest) = Some (s, rest).
Proof.
  intros [Hcp Hfree]. induction s as [|c s IH]; [reflexivity |].
  apply Forall_cons in Hcp as [Hc Hcp]. destruct Hfree as [Hhead Hfree].
  cbn [flat_map]. rewrite <- app_assoc, scanstring_escape_char, IH; try done.
  intros Hhigh. destruct s as [|d s]; [by destruct rest |].
  apply Forall_cons in Hcp as [Hd _].
  cbn [flat_map]. rewrite <- app_assoc. apply low_escape_ahead_escape_char; [done |].
  destruct (low_surrogate d); [| done]. by destruct Hhead.
Qed.

Lemma scanstring_encoded (s rest : text) :
  editor_text s →
  scanstring (flat_map escape_char s ++ [34] ++ rest) = Some (s, rest).
Proof. apply scanstring_escaped. Qed.

Lemma editor_text_str (s : string) : editor_text (str s).
Proof.
  assert (∀ a, Ascii.N_of_ascii a < 256) as Hlt.
  { intros a. pose proof (Ascii.N_ascii_bounded a). lia. }
  split.
  - induction s as [|a s IH]; constructor; [| done].
    unfold code_point. specialize (Hlt a). lia.
  - induction s as [|a s IH]; [done |]. split; [| done].
    destruct s as [|b s]; [done |]. intros [Hh _].
    unfold high_surrogate in Hh. apply andb_true_iff in Hh as [Hh _].
    apply N.leb_le in Hh. cbn [str] in Hh. specialize (Hlt a). lia.
Qed.

Lemma skip_ws_stop (c : N) (s : text) : is_ws c = false → skip_ws (c :: s) = c :: s.
Proof. intros H. cbn [skip_ws]. by rewrite H. Qed.

Lemma skip_ws_space (s : text) : skip_ws (32 :: s) = skip_ws s.
Proof. reflexivity. Qed.

Lemma parse_members_cons (fuel : nat) (k v tail : text) :
  editor_text k → editor_text v →
  parse_members (S fuel)
    (encode_basestring_ascii k ++ str ": " ++ encode_basestring_ascii v ++ tail) =
  match skip_ws tail with
  | sep :: s6 =>
      if sep =? 125 then Some ([(k, v)], s6)
      else if sep =? 44 then
        '(d, s7) ← parse_members fuel (skip_ws s6); Some ((k, v) :: d, s7)
      else None
  | [] => None
  end.
Proof.
  intros Hk Hv. unfold encode_basestring_ascii.
  change (str ": ") with [58; 32].
  cbn [app parse_members]. change (34 =? 34) with true. cbv iota.
  rewrite <- !app_assoc, scanstring_encoded by done.
  cbn [mbind option_bind app].
  rewrite (skip_ws_stop 58) by done. change (58 =? 58) with true. cbv iota.
  rewrite skip_ws_space, (skip_ws_stop 34) by done.
  change (34 =? 34) with true. cbv iota.
  rewrite scanstring_escaped by done. reflexivity.
Qed.

Lemma dump_members_head (d : pydict) :
  d ≠ [] → ∃ t, dump_members d = 34 :: t.
Proof.
  destruct d as [|[k v] d]; [done |]. intros _.
  destruct d; cbn [dump_members encode_basestring_ascii app]; eauto.
Qed.

Lemma parse_members_dump (d : pydict) (fuel : nat) (rest : text) :
  d ≠ [] →
  Forall (λ kv, editor_text kv.1 ∧ editor_text kv.2) d →
  (length d ≤ fuel)%nat →
  parse_members fuel (dump_members d ++ 125 :: rest) = Some (d, rest).
Proof.
  revert fuel. induction d as [|[k v] d IH]; intros fuel Hne Hd Hfuel; [done |].
  apply Forall_cons in Hd as [[Hk Hv] Hd].
  destruct fuel as [|fuel]; [cbn in Hfuel; lia |].
  destruct d as [|kv d].
  - cbn [dump_members]. rewrite <- !app_assoc.
    by rewrite parse_members_cons.
  - assert (dump_members ((k, v) :: kv :: d) =
            encode_basestring_ascii k ++ str ": " ++ encode_basestring_ascii v ++
            str ", " ++ dump_members (kv :: d)) as -> by by destruct kv.
    rewrite <- !app_assoc. rewrite parse_members_cons by done.
    change (str ", ") with [44; 32]. cbn [app].
    rewrite (skip_ws_stop 44) by done. change (44 =? 125) with false.
    change (44 =? 44) with true. cbv iota. rewrite skip_ws_space.
    destruct (dump_members_head (kv :: d)) as [t Ht]; [done |].
    assert (skip_ws (dump_members (kv :: d) ++ 125 :: rest) =
            dump_members (kv :: d) ++ 125 :: rest) as ->.
    { rewrite Ht. reflexivity. }
    rewrite IH; [done | done | done |]. cbn [length] in *. lia.
Qed.

Lemma dump_members_length (d : pydict) : (length d ≤ length (dump_members d))%nat.
Proof.
  induction d as [|[k v] d IH]; [done |].
  destruct d as [|kv d].
  - cbn. lia.
  - assert (dump_members ((k, v) :: kv :: d) =
            encode_basestring_ascii k ++ str ": " ++ encode_basestring_ascii v ++
            str ", " ++ dump_members (kv :: d)) as -> by by destruct kv.
    rewrite !length_app. unfold encode_basestring_ascii. cbn [length app] in *. lia.
Qed.

(** [json.loads(json.dumps(d)) == d] for a non-empty dict of texts in
    which no high surrogate is directly followed by a low one. *)
Lemma json_loads_dumps (d : pydict) :
  d ≠ [] →
  Forall (λ kv, editor_text kv.1 ∧ editor_text kv.2) d →
  json_loads (json_dumps d) = Some d.
Proof.
  intros Hne Hd. unfold json_dumps, json_loads.
  change (str "{") with [123]. change (str "}") with [125].
  destruct (dump_members_head d Hne) as [t Ht].
  cbn [app]. rewrite (skip_ws_stop 123) by done.
  change (123 =? 123) with true. cbv iota.
  assert (skip_ws (dump_members d ++ [125]) = 34 :: t ++ [125]) as ->
    by by rewrite Ht.
  change (34 =? 125) with false. cbv iota.
  change (34 :: t ++ [125]) with ((34 :: t) ++ [125]). rewrite <- Ht.
  rewrite parse_members_dump; [done | done | done |].
  cbn [length]. rewrite length_app. pose proof (dump_members_length d). lia.
Qed.

Example dumps_example :
  json_dumps [(str "language", str "Go"); (str "code", [104; 10; 233; 0x1f600])] =
  str "{" ++ [34] ++ str "language" ++ [34] ++ str ": " ++ [34] ++ str "Go" ++ [34] ++
  str ", " ++ [34] ++ str "code" ++ [34] ++ str ": " ++
  [34] ++ str "h\n\u00e9\ud83d\ude00" ++ [34] ++ str "}".
Proof. vm_compute. reflexivity. Qed.

Example loads_example :
  json_loads (json_dumps [(str "language", str "Go"); (str "code", [104; 10; 233; 0x1f600])]) =
  Some [(str "language", str "Go"); (str "code", [104; 10; 233; 0x1f600])].
Proof. vm_compute. reflexivity. Qed.

(** Without the condition the round trip fails: the two escapes are read
    back as one code point. *)
Example json_surrogate_pair :
  json_loads (json_dumps [(str "code", [0xd83d; 0xde00])]) =
  Some [(str "code", [0x1f600])].
Proof. vm_compute. reflexivity. Qed.

(** ** What [json.load] makes of the descriptor, for every text *)

Lemma escape_char_surrogate (c : N) :
  high_surrogate c = true ∨ low_surrogate c = true → escape_char c = u_escape c.
Proof.
  intros Hs.
  assert (0xd800 ≤ c ∧ c ≤ 0xdfff) as [Hlo Hhi].
  { unfold high_surrogate, low_surrogate in Hs.
    destruct Hs as [Hs | Hs]; apply andb_true_iff in Hs as [H1 H2];
      apply N.leb_le in H1, H2; lia. }
  unfold escape_char.
  repeat match goal with
  | |- context [if ?x =? ?k then _ else _] =>
      destruct (N.eqb_spec x k) as [-> | _]; [lia |]
  end.
  rewrite (proj2 (N.leb_gt c 126)) by lia. rewrite andb_false_r.
  by rewrite (proj2 (N.ltb_lt c 0x10000)) by lia.
Qed.

Lemma scanstring_merged_bounded (n : nat) (s rest : text) :
  (length s ≤ n)%nat →
  Forall code_point s →
  scanstring (flat_map escape_char s ++ 34 :: rest) = Some (merge_pairs s, rest).
Proof.
  revert s. induction n as [|n IH]; intros s Hlen Hcp.
  { destruct s; [reflexivity | cbn in Hlen; lia]. }
  destruct s as [|c s]; [reflexivity |].
  apply Forall_cons in Hcp as [Hc Hcp]. cbn [length] in Hlen.
  destruct s as [|d s].
  { cbn [flat_map merge_pairs]. rewrite app_nil_r.
    rewrite scanstring_escape_char; [reflexivity | done |].
    intros _. by destruct rest. }
  apply Forall_cons in Hcp as Hcp'. destruct Hcp' as [Hd Hcp'].
  cbn [length] in Hlen. cbn [merge_pairs].
  destruct (high_surrogate c && low_surrogate d) eqn:Hpair.
  - apply andb_true_iff in Hpair as [Hhi Hlo].
    cbn [flat_map]. rewrite <- !app_assoc.
    rewrite (escape_char_surrogate c), (escape_char_surrogate d) by auto.
    assert (c < 0x10000 ∧ d < 0x10000) as [Hc16 Hd16].
    { unfold high_surrogate, low_surrogate in *.
      apply andb_true_iff in Hhi as [_ H1]. apply andb_true_iff in Hlo as [_ H2].
      apply N.leb_le in H1, H2. lia. }
    destruct (decode_u_escape c
                (u_escape d ++ flat_map escape_char s ++ 34 :: rest) Hc16)
      as (h1 & h2 & h3 & h4 & -> & Hdc).
    destruct (decode_u_escape d (flat_map escape_char s ++ 34 :: rest) Hd16)
      as (g1 & g2 & g3 & g4 & -> & Hdd).
    rewrite (scanstring_pair _ _ _ _ _ _ _ _ _ _ _ Hdc Hhi Hdd Hlo).
    by rewrite IH by (done || lia).
  - change (flat_map escape_char (c :: d :: s)) with
      (escape_char c ++ flat_map escape_char (d :: s)).
    rewrite <- app_assoc, scanstring_escape_char, IH; try done; try (cbn; lia).
    intros Hhi. rewrite Hhi in Hpair. cbn [andb] in Hpair.
    cbn [flat_map]. rewrite <- app_assoc.
    by apply low_escape_ahead_escape_char.
Qed.

(** [scanstring] undoes the encoder up to the surrogate pairs. *)
Lemma scanstring_merged (s rest : text) :
  Forall code_point s →
  scanstring (flat_map escape_char s ++ 34 :: rest) = Some (merge_pairs s, rest).
Proof. by apply (scanstring_merged_bounded (length s)). Qed.

Lemma merge_pairs_cons (c d : N) (s : text) :
  merge_pairs (c :: d :: s) =
  if high_surrogate c && low_surrogate d
  then 0x10000 + N.lor (N.shiftl (c - 0xd800) 10) (d - 0xdc00) :: merge_pairs s
  else c :: merge_pairs (d :: s).
Proof. reflexivity. Qed.

Lemma merge_pairs_free (s : text) : surrogate_pair_free s → merge_pairs s = s.
Proof.
  induction s as [|c s IH]; [done |]. intros [Hhead Hfree].
  destruct s as [|d s]; [done |]. rewrite merge_pairs_cons.
  destruct (high_surrogate c && low_surrogate d) eqn:Hpair.
  - apply andb_true_iff in Hpair. by destruct Hhead.
  - by rewrite IH.
Qed.

Lemma merge_pairs_length_bounded (n : nat) (s : text) :
  (length s ≤ n)%nat → (length (merge_pairs s) ≤ length s)%nat.
Proof.
  revert s. induction n as [|n IH]; intros s Hlen.
  { destruct s; [done | cbn in Hlen; lia]. }
  destruct s as [|c [|d s]]; [done | done |]. cbn [length] in Hlen.
  rewrite merge_pairs_cons.
  destruct (high_surrogate c && low_surrogate d).
  - cbn [length]. specialize (IH s ltac:(lia)). lia.
  - cbn [length]. specialize (IH (d :: s) ltac:(cbn; lia)). cbn [length] in IH. lia.
Qed.

Lemma merge_pairs_shorter (s : text) :
  ¬ surrogate_pair_free s → (length (merge_pairs s) < length s)%nat.
Proof.
  induction s as [|c s IH]; [by intros [] |]. intros Hnot.
  destruct s as [|d s]; [by destruct Hnot |]. rewrite merge_pairs_cons.
  destruct (high_surrogate c && low_surrogate d) eqn:Hpair.
  - cbn [length]. pose proof (merge_pairs_length_bounded (length s) s (le_n _)). lia.
  - cbn [length]. assert (¬ surrogate_pair_free (d :: s)) as Hrest.
    { intros Hfree. apply Hnot. split; [| done].
      intros [Hh Hl]. by rewrite Hh, Hl in Hpair. }
    specialize (IH Hrest). cbn [length] in IH. lia.
Qed.

Lemma parse_members_cons_merged (fuel : nat) (k v tail : text) :
  Forall code_point k → Forall code_point v →
  parse_members (S fuel)
    (encode_basestring_ascii k ++ str ": " ++ encode_basestring_ascii v ++ tail) =
  match skip_ws tail with
  | sep :: s6 =>
      if sep =? 125 then Some ([(merge_pairs k, merge_pairs v)], s6)
      else if sep =? 44 then
        '(d, s7) ← parse_members fuel (skip_ws s6);
        Some ((merge_pairs k, merge_pairs v) :: d, s7)
      else None
  | [] => None
  end.
Proof.
  intros Hk Hv. unfold encode_basestring_ascii.
  change (str ": ") with [58; 32].
  cbn [app parse_members]. change (34 =? 34) with true. cbv iota.
  rewrite <- !app_assoc.
  change ([34] ++ 58 :: 32 :: 34 :: flat_map escape_char v ++ [34] ++ tail)
    with (34 :: 58 :: 32 :: 34 :: flat_map escape_char v ++ 34 :: tail).
  rewrite scanstring_merged by done.
  cbn [mbind option_bind].
  rewrite (skip_ws_stop 58) by done. change (58 =? 58) with true. cbv iota.
  rewrite skip_ws_space, (skip_ws_stop 34) by done.
  change (34 =? 34) with true. cbv iota.
  rewrite scanstring_merged by done. reflexivity.
Qed.

(** [json.loads(json.dumps(...))] of the document [save_code] writes,
    for every text. *)
Lemma descriptor_text_loads (l : language) (code : text) :
  Forall code_point code →
  json_loads (descriptor_text l code) =
  Some [(str "language", str (lang_name l)); (str "code", merge_pairs code)].
Proof.
  intros Hcode.
  assert (∀ s, merge_pairs (str s) = str s ∧ Forall code_point (str s)) as Hstr.
  { intros s. destruct (editor_text_str s) as [Hcp Hfree].
    split; [by apply merge_pairs_free | done]. }
  destruct (Hstr "language") as [Hm1 Hc1]. destruct (Hstr (lang_name l)) as [Hm2 Hc2].
  destruct (Hstr "code") as [Hm3 Hc3].
  unfold descriptor_text, json_dumps, json_loads, dump_members.
  change (str "{") with [123]. change (str "}") with [125].
  set (body := encode_basestring_ascii (str "language") ++ str ": " ++
               encode_basestring_ascii (str (lang_name l)) ++ str ", " ++
               encode_basestring_ascii (str "code") ++ str ": " ++
               encode_basestring_ascii code).
  assert (∃ t, body = 34 :: t) as [t Ht].
  { unfold body, encode_basestring_ascii. cbn [app]. eauto. }
  cbn [app]. rewrite (skip_ws_stop 123) by done.
  change (123 =? 123) with true. cbv iota.
  assert (skip_ws (body ++ [125]) = body ++ [125]) as -> by by rewrite Ht.
  rewrite Ht at 1. cbn [app]. change (34 =? 125) with false. cbv iota.
  assert (∃ m, length (123 :: body ++ [125]) = S (S m)) as [m ->].
  { exists (length body). cbn [length]. rewrite length_app. cbn [length]. lia. }
  unfold body. rewrite <- !app_assoc.
  rewrite parse_members_cons_merged by done.
  change (str ", ") with [44; 32]. cbn [app].
  rewrite (skip_ws_stop 44) by done. change (44 =? 125) with false.
  change (44 =? 44) with true. cbv iota. rewrite skip_ws_space.
  assert (∀ x, skip_ws (encode_basestring_ascii (str "code") ++ x) =
               encode_basestring_ascii (str "code") ++ x) as -> by done.
  rewrite parse_members_cons_merged by done.
  rewrite (skip_ws_stop 125) by done. change (125 =? 125) with true. cbv iota.
  cbn [mbind option_bind skip_ws]. by rewrite Hm1, Hm2, Hm3.
Qed.

(** ** Statements that may raise: evaluation and frame *)

Lemma machine_only_refl (w : world) : machine_only w w.
Proof. by destruct w. Qed.

Lemma machine_only_trans (w1 w2 w3 : world) :
  machine_only w1 w2 → machine_only w2 w3 → machine_only w1 w3.
Proof. unfold machine_only. intros H12 H23. rewrite H23, H12. reflexivity. Qed.

Lemma machine_only_set_fs (f : gmap string text) (w : world) :
  machine_only w (set_fs f w).
Proof. by destruct w. Qed.

Lemma machine_only_set_calls (c : list (list text)) (w : world) :
  machine_only w (set_calls c w).
Proof. by destruct w. Qed.

Create HintDb frame.

#[local] Hint Resolve machine_only_refl machine_only_set_fs machine_only_set_calls : frame.

Lemma frames_ret {A} (a : A) : frames (ret a).
Proof. intros w. apply machine_only_refl. Qed.

Lemma frames_raise {A} (e : exn) : frames (@raise A e).
Proof. intros w. apply machine_only_refl. Qed.

Lemma frames_bind {A B} (m : M A) (k : A → M B) :
  frames m → (∀ a, frames (k a)) → frames (bind m k).
Proof.
  intros Hm Hk w. unfold bind. specialize (Hm w).
  destruct (m w) as [[a | e] w1]; [| done].
  eapply machine_only_trans; [exact Hm | apply Hk].
Qed.

Lemma frames_try_except {A} (m : M A) (h : exn → M A) :
  frames m → (∀ e, frames (h e)) → frames (try_except m h).
Proof.
  intros Hm Hh w. unfold try_except. specialize (Hm w).
  destruct (m w) as [[a | e] w1]; [done |].
  eapply machine_only_trans; [exact Hm | apply Hh].
Qed.

Lemma frames_open_w (p : string) : frames (open_w p).
Proof. intros w. unfold open_w. case_decide; cbn; auto with frame. Qed.

Lemma frames_write (p : string) (t : text) : frames (write p t).
Proof.
  intros w. unfold write. destruct (utf8_error false 0 t) as [[[c a] b] |]; cbn;
    auto with frame.
Qed.

Lemma frames_read (p : string) : frames (read p).
Proof. intros w. unfold read. destruct (fs w !! p); cbn; auto with frame. Qed.

Lemma frames_path_exists (p : string) : frames (path_exists p).
Proof. intros w. cbn. auto with frame. Qed.

Lemma frames_remove (p : string) : frames (remove p).
Proof.
  intros w. unfold remove. destruct (fs w !! p); [| cbn; auto with frame].
  case_decide; cbn; auto with frame.
Qed.

Lemma frames_json_load (p : string) : frames (json_load p).
Proof.
  apply frames_bind; [apply frames_read |]. intros t.
  destruct (json_loads t); [apply frames_ret | apply frames_raise].
Qed.

Lemma frames_getitem (d : pydict) (k : string) : frames (getitem d k).
Proof. unfold getitem. destruct (dict_get _ d); [apply frames_ret | apply frames_raise]. Qed.

Lemma frames_subprocess_run (prog : string) (found : option program) (args : list text) :
  frames (subprocess_run prog found args).
Proof.
  intros w. unfold subprocess_run. cbv zeta.
  destruct (argv_error _); cbn; [auto with frame |].
  destruct found as [f |]; cbn; [| auto with frame].
  destruct (f args _); cbn; by destruct w.
Qed.

Lemma frames_run_argv (mc : machine) (prog : string) (args : list text) :
  frames (run_argv mc prog args).
Proof. intros w. unfold run_argv. apply frames_subprocess_run. Qed.

Lemma frames_run_shell (mc : machine) (cmd : string) : frames (run_shell mc cmd).
Proof. unfold run_shell. apply frames_subprocess_run. Qed.

#[local] Hint Resolve frames_ret frames_raise frames_open_w frames_write frames_read
  frames_path_exists frames_remove frames_json_load frames_getitem
  frames_run_argv frames_run_shell : frame.

Ltac frame :=
  repeat first
    [ solve [auto with frame]
    | apply frames_bind; [| intros ?]
    | apply frames_try_except; [| intros ?]
    | match goal with
      | |- frames (if ?b then _ else _) => destruct b
      | |- frames (match ?x with _ => _ end) => destruct x
      end ].

Lemma frames_write_source (filename code_file : string) :
  frames (write_source filename code_file).
Proof. unfold write_source. frame. Qed.

Lemma frames_execute_code (mc : machine) (l : language) (code_file : string) :
  frames (execute_code mc l code_file).
Proof.
  unfold execute_code, execute_body.
  destruct l; frame; apply frames_write_source.
Qed.

Lemma frames_save_code (l : language) (code : text) : frames (save_code l code).
Proof. unfold save_code. frame. Qed.

(** [execute_code] returns a text, whatever happens inside it. *)
Lemma execute_code_returns (mc : machine) (l : language) (code_file : string) (w : world) :
  ∃ out w',
    execute_code mc l code_file w = (Ok out, w') ∧
    match execute_body mc l code_file w with
    | (Ok o, w1) => out = o ∧ w' = w1
    | (Raise e, w1) => out = exn_str e ∧ w' = w1
    end.
Proof.
  unfold execute_code, try_except.
  destruct (execute_body mc l code_file w) as [[o | e] w1]; cbn; eauto.
Qed.

Lemma machine_only_fields (w w' : world) :
  machine_only w w' →
  run_timer w' = run_timer w ∧ current w' = current w ∧
  code_editors w' = code_editors w ∧ output_area w' = output_area w ∧
  gui_preview w' = gui_preview w ∧ gui_process w' = gui_process w ∧
  children w' = children w ∧ denied w' = denied w ∧
  dispatched w' = dispatched w ∧ crashed w' = crashed w.
Proof. intros ->. done. Qed.

Lemma bind_ok {A B} (m : M A) (k : A → M B) (w w1 : world) (a : A) :
  m w = (Ok a, w1) → bind m k w = k a w1.
Proof. intros H. unfold bind. by rewrite H. Qed.

Lemma bind_raise {A B} (m : M A) (k : A → M B) (w w1 : world) (e : exn) :
  m w = (Raise e, w1) → bind m k w = (Raise e, w1).
Proof. intros H. unfold bind. by rewrite H. Qed.

Lemma open_w_ok (p : string) (w : world) :
  p ∉ denied w → open_w p w = (Ok tt, set_fs (<[p := []]> (fs w)) w).
Proof. intros H. unfold open_w. by rewrite decide_False. Qed.

Lemma open_w_denied (p : string) (w : world) :
  p ∈ denied w → open_w p w = (Raise (PermissionError p), w).
Proof. intros H. unfold open_w. by rewrite decide_True. Qed.

(** The document [save_code] writes is printable ASCII, which UTF-8
    encodes. *)

Lemma hex_digit_printable (d : N) : d < 16 → 32 ≤ hex_digit d ≤ 126.
Proof. intros Hd. unfold hex_digit. destruct (N.ltb_spec d 10); lia. Qed.

Lemma u_escape_printable (n : N) : Forall (λ c, 32 ≤ c ≤ 126) (u_escape n).
Proof.
  unfold u_escape.
  repeat (apply Forall_cons; split;
          [first [lia | apply hex_digit_printable, N.mod_lt; discriminate] |]).
  apply Forall_nil_2.
Qed.

Lemma escape_char_printable (c : N) : Forall (λ c, 32 ≤ c ≤ 126) (escape_char c).
Proof.
  unfold escape_char.
  repeat match goal with
  | |- context [if ?x =? ?k then _ else _] =>
      destruct (N.eqb_spec x k) as [_ | _];
      [repeat (apply Forall_cons; split; [lia |]); apply Forall_nil_2 |]
  end.
  destruct ((32 <=? c) && (c <=? 126)) eqn:Hp.
  { apply andb_true_iff in Hp as [H1 H2]. apply N.leb_le in H1, H2.
    apply Forall_cons. split; [lia | apply Forall_nil_2]. }
  destruct (c <? 0x10000); [apply u_escape_printable |].
  cbv zeta. apply Forall_app. split; apply u_escape_printable.
Qed.

Lemma encode_printable (s : text) :
  Forall (λ c, 32 ≤ c ≤ 126) (encode_basestring_ascii s).
Proof.
  unfold encode_basestring_ascii. apply Forall_cons. split; [lia |].
  apply Forall_app. split; [| apply Forall_cons; split; [lia | apply Forall_nil_2]].
  induction s as [|c s IH]; [apply Forall_nil_2 |].
  cbn [flat_map]. apply Forall_app. split; [apply escape_char_printable | exact IH].
Qed.

Lemma descriptor_text_printable (l : language) (code : text) :
  Forall (λ c, 32 ≤ c ≤ 126) (descriptor_text l code).
Proof.
  unfold descriptor_text, json_dumps, dump_members.
  change (str "{") with [123]. change (str "}") with [125].
  change (str ": ") with [58; 32]. change (str ", ") with [44; 32].
  repeat first
    [ apply Forall_app; split
    | apply encode_printable
    | apply Forall_cons; split; [lia |]
    | apply Forall_nil_2 ].
Qed.

Lemma utf8_error_none (lenient : bool) (i : nat) (s : text) :
  Forall (λ c, surrogate c = false) s → utf8_error lenient i s = None.
Proof.
  intros Hs. revert i. induction Hs as [|c s Hc _ IH]; intros i; [done |].
  cbn [utf8_error]. rewrite Hc. apply IH.
Qed.

Lemma printable_not_surrogate (s : text) :
  Forall (λ c, 32 ≤ c ≤ 126) s → Forall (λ c, surrogate c = false) s.
Proof.
  intros Hs. eapply Forall_impl; [exact Hs |]. intros c [_ Hc]. unfold surrogate.
  rewrite (proj2 (N.leb_gt 0xd800 c)) by lia. done.
Qed.

Lemma write_ok (p : string) (t : text) (w : world) :
  encodable t → write p t w = (Ok tt, set_fs (<[p := t]> (fs w)) w).
Proof.
  unfold encodable, encode_error, write.
  by destruct (utf8_error false 0 t) as [[[c a] b] |].
Qed.

Lemma write_raises (p : string) (t : text) (e : exn) (w : world) :
  encode_error t = Some e → write p t w = (Raise e, w).
Proof.
  unfold encode_error, write.
  destruct (utf8_error false 0 t) as [[[c a] b] |]; [| done]. by intros [= <-].
Qed.

Lemma descriptor_text_encodable (l : language) (code : text) :
  encodable (descriptor_text l code).
Proof.
  unfold encodable, encode_error.
  by rewrite (utf8_error_none false 0 _
                (printable_not_surrogate _ (descriptor_text_printable l code))).
Qed.

Lemma save_code_ok (l : language) (code : text) (w : world) :
  descriptor l ∉ denied w →
  save_code l code w =
  (Ok (descriptor l), set_fs (<[descriptor l := descriptor_text l code]> (fs w)) w).
Proof.
  intros H. unfold save_code. fold (descriptor l).
  rewrite (bind_ok _ _ _ _ _ (open_w_ok _ _ H)).
  fold (descriptor_text l code).
  rewrite (bind_ok _ _ _ _ _ (write_ok _ _ _ (descriptor_text_encodable l code))).
  unfold ret. cbn. by rewrite insert_insert_eq.
Qed.

Lemma save_code_denied (l : language) (code : text) (w : world) :
  descriptor l ∈ denied w →
  save_code l code w = (Raise (PermissionError (descriptor l)), w).
Proof.
  intros H. unfold save_code. fold (descriptor l).
  by rewrite (bind_raise _ _ _ _ _ (open_w_denied _ _ H)).
Qed.

Lemma wants_preview_spec (l : language) (code : text) :
  wants_preview l code = true ↔
  l = Python ∧
  ((∃ pre post, code = pre ++ str "Tkinter" ++ post) ∨
   (∃ pre post, code = pre ++ str "PyQt6" ++ post)).
Proof.
  unfold wants_preview.
  by rewrite andb_true_iff, bool_decide_eq_true, orb_true_iff, !contains_spec.
Qed.

Lemma run_gui_preview_frame (code : text) (w : world) :
  ∃ w', run_gui_preview code w = (Ok tt, w') ∧
        output_area w' = output_area w ∧ calls w' = calls w ∧ fs w' = fs w ∧
        run_timer w' = run_timer w ∧ dispatched w' = dispatched w ∧
        crashed w' = crashed w ∧ denied w' = denied w ∧
        current w' = current w ∧ code_editors w' = code_editors w.
Proof.
  unfold run_gui_preview. eexists. split; [reflexivity |].
  destruct (gui_process_running w); [| done].
  unfold terminate. destruct (gui_process w) as [i |]; [| done].
  by destruct (children w !! i).
Qed.

Lemma run_code_staged (mc : machine) (w : world) :
  descriptor (current w) ∉ denied w →
  run_code mc w =
  let lang := current w in
  let code := code_editors w lang in
  let w1 := set_fs (<[descriptor lang := descriptor_text lang code]> (fs w)) (fired w) in
  if wants_preview lang code then run_gui_preview code w1
  else
    match execute_code mc lang (descriptor lang) w1 with
    | (Ok output, w2) => (Ok tt, set_output_area output w2)
    | (Raise e, w2) => (Raise e, w2)
    end.
Proof.
  intros H. unfold run_code. cbv zeta. fold (fired w).
  change (current (set_run_timer None w)) with (current w).
  change (code_editors (set_run_timer None w)) with (code_editors w).
  erewrite bind_ok; [| by apply save_code_ok].
  destruct (wants_preview _ _); [reflexivity |].
  unfold bind at 1. by destruct (execute_code _ _ _ _) as [[o | e] w2].
Qed.

Lemma run_code_unstaged (mc : machine) (w : world) :
  descriptor (current w) ∈ denied w →
  run_code mc w = (Raise (PermissionError (descriptor (current w))), fired w).
Proof.
  intros H. unfold run_code. cbv zeta. fold (fired w).
  change (current (set_run_timer None w)) with (current w).
  change (code_editors (set_run_timer None w)) with (code_editors w).
  by erewrite bind_raise; [| by apply save_code_denied].
Qed.

(** The plain path of [run_code]. *)
Lemma run_code_plain (mc : machine) (w : world) :
  descriptor (current w) ∉ denied w →
  wants_preview (current w) (code_editors w (current w)) = false →
  ∃ output w2,
    execute_code mc (current w) (descriptor (current w))
      (set_fs (<[descriptor (current w) :=
                 descriptor_text (current w) (code_editors w (current w))]> (fs w))
         (fired w)) = (Ok output, w2) ∧
    run_code mc w = (Ok tt, set_output_area output w2) ∧
    children w2 = children w ∧ gui_process w2 = gui_process w.
Proof.
  intros Hd Hp. pose proof (run_code_staged mc w Hd) as Hrun. cbv zeta in Hrun.
  rewrite Hp in Hrun.
  match type of Hrun with context [execute_code mc ?l ?f ?x] =>
    destruct (execute_code_returns mc l f x) as (output & w2 & Hex & _);
    pose proof (frames_execute_code mc l f x) as Hf
  end.
  exists output, w2. rewrite Hex in Hrun, Hf. split; [done |]. split; [done |].
  cbn [snd] in Hf. apply machine_only_fields in Hf.
  destruct Hf as (_ & _ & _ & _ & _ & Hg & Hc & _). by rewrite Hg, Hc.
Qed.

(** ** Routing *)

(** C5. A dispatch whose staging succeeds is routed by the language and
    the text alone: to the preview exactly when the language is Python and
    the text contains [Tkinter] or [PyQt6], and then the output area and
    the record of [subprocess.run] calls are left as they were; in every
    other case [execute_code] runs and its text is put in the output
    area, no preview child being started.  Either path starts from the
    world in which the descriptor is already written. *)
Theorem dispatch_routing (mc : machine) (w : world) :
  descriptor (current w) ∉ denied w →
  let lang := current w in
  let code := code_editors w lang in
  let w1 := set_fs (<[descriptor lang := descriptor_text lang code]> (fs w)) (fired w) in
  (wants_preview lang code = true ↔
   lang = Python ∧
   ((∃ pre post, code = pre ++ str "Tkinter" ++ post) ∨
    (∃ pre post, code = pre ++ str "PyQt6" ++ post))) ∧
  save_code lang code (fired w) = (Ok (descriptor lang), w1) ∧
  (wants_preview lang code = true →
   run_code mc w = run_gui_preview code w1 ∧
   output_area (run_code mc w).2 = output_area w ∧
   calls (run_code mc w).2 = calls w) ∧
  (wants_preview lang code = false →
   ∃ output w2,
     execute_code mc lang (descriptor lang) w1 = (Ok output, w2) ∧
     run_code mc w = (Ok tt, set_output_area output w2) ∧
     children w2 = children w ∧ gui_process w2 = gui_process w).
Proof.
  intros Hd lang code w1. split; [apply wants_preview_spec |].
  split; [by apply save_code_ok |].
  pose proof (run_code_staged mc w Hd) as Hrun. cbv zeta in Hrun.
  fold lang code w1 in Hrun. split; intros Hp; rewrite Hp in Hrun.
  - split; [done |]. rewrite Hrun.
    destruct (run_gui_preview_frame code w1) as (w' & -> & Ho & Hc & _).
    cbn [snd]. by rewrite Ho, Hc.
  - exact (run_code_plain mc w Hd Hp).
Qed.

Lemma dispatch_routing_witness :
  let mc := toy_machine in
  let w := example_world Python (str "import PyQt6") ∅ in
  (descriptor (current w) ∉ denied w) ∧
  let lang := current w in
  let code := code_editors w lang in
  let w1 := set_fs (<[descriptor lang := descriptor_text lang code]> (fs w)) (fired w) in
  (wants_preview lang code = true ↔
   lang = Python ∧
   ((∃ pre post, code = pre ++ str "Tkinter" ++ post) ∨
    (∃ pre post, code = pre ++ str "PyQt6" ++ post))) ∧
  save_code lang code (fired w) = (Ok (descriptor lang), w1) ∧
  (wants_preview lang code = true →
   run_code mc w = run_gui_preview code w1 ∧
   output_area (run_code mc w).2 = output_area w ∧
   calls (run_code mc w).2 = calls w) ∧
  (wants_preview lang code = false →
   ∃ output w2,
     execute_code mc lang (descriptor lang) w1 = (Ok output, w2) ∧
     run_code mc w = (Ok tt, set_output_area output w2) ∧
     children w2 = children w ∧ gui_process w2 = gui_process w).
Proof.
  intros mc w.
  assert (descriptor (current w) ∉ denied w) as Hd by apply not_elem_of_empty.
  split; [exact Hd | exact (dispatch_routing mc w Hd)].
Defined.

(** ** Exceptions *)

(** C7 (amended). Whatever is raised inside [execute_code], a toolchain
    that is not found, a file that cannot be read, written or deleted, a
    descriptor that cannot be decoded, is caught there and its message is
    the text returned: [execute_code] never raises.  [run_code] raises
    exactly when staging does, [save_code] being called outside that
    handler. *)
Theorem exceptions_stop_at_execute_code (mc : machine) :
  (∀ l code_file w,
     ∃ out w',
       execute_code mc l code_file w = (Ok out, w') ∧
       match execute_body mc l code_file w with
       | (Ok o, w1) => out = o ∧ w' = w1
       | (Raise e, w1) => out = exn_str e ∧ w' = w1
       end) ∧
  (∀ w e w',
     run_code mc w = (Raise e, w') ↔
     descriptor (current w) ∈ denied w ∧
     e = PermissionError (descriptor (current w)) ∧ w' = fired w).
Proof.
  split; [apply execute_code_returns |].
  intros w e w'. destruct (decide (descriptor (current w) ∈ denied w)) as [Hd | Hd].
  - rewrite (run_code_unstaged mc w Hd). split.
    + intros [= <- <-]. done.
    + intros (_ & -> & ->). done.
  - rewrite (run_code_staged mc w Hd). cbv zeta. split; [| by intros [? _]].
    destruct (wants_preview _ _).
    + destruct (run_gui_preview_frame (code_editors w (current w))
        (set_fs (<[descriptor (current w) :=
                   descriptor_text (current w) (code_editors w (current w))]> (fs w))
           (fired w))) as (w1 & -> & _).
      done.
    + destruct (execute_code_returns mc (current w) (descriptor (current w))
        (set_fs (<[descriptor (current w) :=
                   descriptor_text (current w) (code_editors w (current w))]> (fs w))
           (fired w))) as (out & w2 & -> & _).
      done.
Qed.

(** A descriptor that cannot be written: the exception leaves
    [run_code], and the slot that called it. *)
Lemma staging_failure_escapes :
  let w := example_world Python (str "print(1)") {[descriptor Python]} in
  (run_code toy_machine w).1 = Raise (PermissionError (descriptor Python)) ∧
  crashed (run_events toy_machine [TextChanged Python (str "print(1)"); Idle 1500]
             (init ∅ {[descriptor Python]})) =
  Some (PermissionError "appstack_temp/temp_code_Python.json").
Proof. split; vm_compute; reflexivity. Qed.

(** ** Run from source *)

Lemma json_load_ok (p : string) (t : text) (d : pydict) (w : world) :
  fs w !! p = Some t → json_loads t = Some d → json_load p w = (Ok d, w).
Proof. intros Ht Hd. unfold json_load, bind, read. by rewrite Ht, Hd. Qed.

Lemma getitem_ok (d : pydict) (k : string) (v : text) (w : world) :
  dict_get (str k) d = Some v → getitem d k w = (Ok v, w).
Proof. intros H. unfold getitem. by rewrite H. Qed.

(** The source file is opened, the descriptor is read, and the text is
    written: up to the write. *)
Lemma write_source_reads (filename code_file : string) (code : text) (w : world) :
  staged w code_file code →
  code_file ≠ filename →
  filename ∉ denied w →
  write_source filename code_file w =
  write filename code (set_fs (<[filename := []]> (fs w)) w).
Proof.
  intros (t & d & Ht & Hd & Hc) Hne Hden. unfold write_source.
  rewrite (bind_ok _ _ _ _ _ (open_w_ok _ _ Hden)).
  erewrite bind_ok; [| eapply json_load_ok; [| exact Hd]].
  2: { cbn. by rewrite lookup_insert_ne. }
  by rewrite (bind_ok _ _ _ _ _ (getitem_ok _ _ _ _ Hc)).
Qed.

Lemma write_source_ok (filename code_file : string) (code : text) (w : world) :
  staged w code_file code →
  code_file ≠ filename →
  filename ∉ denied w →
  encodable code →
  write_source filename code_file w = (Ok tt, set_fs (<[filename := code]> (fs w)) w).
Proof.
  intros Hst Hne Hden Henc. rewrite (write_source_reads _ _ _ _ Hst Hne Hden).
  rewrite (write_ok _ _ _ Henc). cbn. by rewrite insert_insert_eq.
Qed.

(** A text that cannot be encoded: the source file has been opened, and
    is left empty. *)
Lemma write_source_unencodable (filename code_file : string) (code : text)
    (e : exn) (w : world) :
  staged w code_file code →
  code_file ≠ filename →
  filename ∉ denied w →
  encode_error code = Some e →
  write_source filename code_file w = (Raise e, set_fs (<[filename := []]> (fs w)) w).
Proof.
  intros Hst Hne Hden Henc. rewrite (write_source_reads _ _ _ _ Hst Hne Hden).
  by rewrite (write_raises _ _ _ _ Henc).
Qed.

(** [subprocess.run] once its arguments have been converted. *)
Lemma subprocess_run_converted (prog : string) (found : option program)
    (args : list text) (w : world) :
  argv_error (str prog :: args) = None →
  subprocess_run prog found args w =
  match found with
  | None =>
      (Raise (FileNotFoundError prog), set_calls (calls w ++ [str prog :: args]) w)
  | Some f =>
      match f args (fs w) with
      | Returns r =>
          (Ok r, set_fs (files_after r) (set_calls (calls w ++ [str prog :: args]) w))
      | Raises e files =>
          (Raise e, set_fs files (set_calls (calls w ++ [str prog :: args]) w))
      end
  end.
Proof. intros Ha. unfold subprocess_run. cbv zeta. by rewrite Ha. Qed.

Lemma subprocess_run_calls (prog : string) (found : option program)
    (args : list text) (w w' : world) (r : result completed) :
  subprocess_run prog found args w = (r, w') →
  denied w' = denied w ∧ calls w' = calls w ++ [str prog :: args].
Proof.
  unfold subprocess_run. cbv zeta.
  destruct (argv_error _); [by intros [= <- <-] |].
  destruct found as [f |]; [| by intros [= <- <-]].
  destruct (f args _); by intros [= <- <-].
Qed.

(** An argument of plain characters is converted. *)
Lemma argv_error_cons (a : text) (argv : list text) :
  utf8_error true 0 a = None → existsb (N.eqb 0) a = false →
  argv_error (a :: argv) = argv_error argv.
Proof. intros H1 H2. cbn [argv_error]. by rewrite H1, H2. Qed.

(** [subprocess.run] is given the two words of the Go command as one
    program name: wherever no program is called [go run], the call raises
    and no program is started. *)
Lemma go_run_not_found (mc : machine) (code_file : string) (code : text) (w : world) :
  installed mc "go run" = None →
  staged w code_file code →
  code_file ≠ source_name Go →
  source_name Go ∉ denied w →
  encodable code →
  execute_code mc Go code_file w =
  (Ok (exn_str (FileNotFoundError "go run")),
   set_calls (calls w ++ [[str "go run"; str (source_name Go)]]) (with_source Go code w)).
Proof.
  intros Hgo Hst Hne Hsrc Henc.
  unfold execute_code, try_except, execute_body. cbv zeta.
  rewrite (bind_ok _ _ _ _ _ (write_source_ok _ _ _ _ Hst Hne Hsrc Henc)).
  unfold bind, run_argv. rewrite subprocess_run_converted by (vm_compute; reflexivity).
  unfold resolve. change (has_slash (language_cmds Go)) with false. cbv iota.
  change (language_cmds Go) with "go run". by rewrite Hgo.
Qed.

(** C3. On a machine with the Go toolchain installed as [go], a Go
    dispatch writes the source file, tries to start a program named
    [go run], and shows the error of that attempt: no process runs, so
    there is no exit code, standard output or standard error to report. *)
Theorem go_dispatch_starts_no_process :
  let w := run_events toy_machine
             [TabSelected Go; TextChanged Go (str "package main"); Idle 1500]
             (init ∅ ∅) in
  dispatched w = [(Go, str "package main")] ∧
  fs w !! source_name Go = Some (str "package main") ∧
  calls w = [[str "go run"; str "appstack_temp/temp_code.go"]] ∧
  installed toy_machine "go" ≠ None ∧
  resolve toy_machine "go run" w = None ∧
  output_area w = str "[Errno 2] No such file or directory: 'go run'".
Proof. repeat split; vm_compute; done. Qed.

(** ** The plain path for Python *)

Lemma execute_python (mc : machine) (code_file : string) (code : text) (w : world) :
  staged w code_file code →
  execute_code mc Python code_file w =
  match argv_error [str "python3"; str "-c"; code] with
  | Some e => (Ok (exn_str e), set_calls (calls w ++ [[str "python3"; str "-c"; code]]) w)
  | None =>
      match installed mc "python3" with
      | None =>
          (Ok (str "[Errno 2] No such file or directory: 'python3'"),
           set_calls (calls w ++ [[str "python3"; str "-c"; code]]) w)
      | Some f =>
          match f [str "-c"; code] (fs w) with
          | Returns r =>
              (Ok (if (returncode r =? 0)%Z then stdout r else stderr r),
               set_fs (files_after r)
                 (set_calls (calls w ++ [[str "python3"; str "-c"; code]]) w))
          | Raises e files =>
              (Ok (exn_str e),
               set_fs files (set_calls (calls w ++ [[str "python3"; str "-c"; code]]) w))
          end
      end
  end.
Proof.
  intros (t & d & Ht & Hd & Hc).
  unfold execute_code, try_except, execute_body.
  rewrite (bind_ok _ _ _ _ _ (json_load_ok _ _ _ _ Ht Hd)).
  rewrite (bind_ok _ _ _ _ _ (getitem_ok _ _ _ _ Hc)).
  unfold bind, run_argv, subprocess_run. cbv zeta.
  change (str (language_cmds Python) :: [str "-c"; code])
    with [str "python3"; str "-c"; code].
  destruct (argv_error [str "python3"; str "-c"; code]); [done |].
  unfold resolve. change (has_slash (language_cmds Python)) with false. cbv iota.
  change (language_cmds Python) with "python3".
  destruct (installed mc "python3") as [f |]; [| done].
  cbn [fs set_calls]. by destruct (f [str "-c"; code] (fs w)).
Qed.

(** C10. The test is case-sensitive: a Python text that contains
    [tkinter] but neither [Tkinter] nor [PyQt6] is not sent to the
    preview.  No preview child is started; one [subprocess.run] call is
    made, of [python3 -c] with the text as it is read back from the
    descriptor, which blocks the slot until the program ends; and what
    that call comes to is shown in the output area: the standard output
    of the program when it exits with 0, its standard error when it exits
    with another code, the message of the exception when the call raises.
    The text read back is the text of the editor, an editor holding no
    high surrogate directly followed by a low one. *)
Theorem lowercase_tkinter_runs_inline (mc : machine) (w : world) (code : text) :
  current w = Python →
  code_editors w Python = code →
  contains (str "tkinter") code = true →
  contains (str "Tkinter") code = false →
  contains (str "PyQt6") code = false →
  descriptor Python ∉ denied w →
  Forall code_point code →
  let argv := [str "python3"; str "-c"; merge_pairs code] in
  let files := <[descriptor Python := descriptor_text Python code]> (fs w) in
  wants_preview Python code = false ∧
  (surrogate_pair_free code → merge_pairs code = code) ∧
  ∃ w2,
    run_code mc w = (Ok tt, w2) ∧
    calls w2 = calls w ++ [argv] ∧
    children w2 = children w ∧
    gui_process w2 = gui_process w ∧
    output_area w2 =
    match argv_error argv with
    | Some e => exn_str e
    | None =>
        match installed mc "python3" with
        | None => str "[Errno 2] No such file or directory: 'python3'"
        | Some f =>
            match f [str "-c"; merge_pairs code] files with
            | Returns r => if (returncode r =? 0)%Z then stdout r else stderr r
            | Raises e _ => exn_str e
            end
        end
    end.
Proof.
  intros Hcur Hcode _ HT HP Hd Hcp argv files.
  assert (wants_preview Python code = false) as Hp.
  { unfold wants_preview. by rewrite HT, HP. }
  split; [done |]. split; [apply merge_pairs_free |].
  rewrite <- Hcode, <- Hcur in Hp. rewrite <- Hcur in Hd.
  destruct (run_code_plain mc w Hd Hp) as (output & w2 & Hex & Hrun & Hc & Hg).
  rewrite Hcur, Hcode in Hex.
  rewrite (execute_python mc _ (merge_pairs code)) in Hex.
  2: { exists (descriptor_text Python code),
         [(str "language", str (lang_name Python)); (str "code", merge_pairs code)].
       split; [cbn; apply lookup_insert_eq |].
       split; [apply descriptor_text_loads; exact Hcp | reflexivity]. }
  fold argv in Hex. cbn [fs set_fs] in Hex. fold files in Hex.
  exists (set_output_area output w2). split; [done |].
  cbn [calls children gui_process output_area set_output_area].
  rewrite Hc, Hg.
  destruct (argv_error argv) as [e |].
  { injection Hex as <- <-. done. }
  destruct (installed mc "python3") as [f |]; [| injection Hex as <- <-; done].
  destruct (f [str "-c"; merge_pairs code] files) as [r | e files'];
    injection Hex as <- <-; done.
Qed.

Lemma lowercase_tkinter_runs_inline_witness :
  let mc := toy_machine in
  let code := str "import tkinter" in
  let w := example_world Python code ∅ in
  current w = Python ∧
  code_editors w Python = code ∧
  contains (str "tkinter") code = true ∧
  contains (str "Tkinter") code = false ∧
  contains (str "PyQt6") code = false ∧
  (descriptor Python ∉ denied w) ∧
  Forall code_point code ∧
  let argv := [str "python3"; str "-c"; merge_pairs code] in
  let files := <[descriptor Python := descriptor_text Python code]> (fs w) in
  wants_preview Python code = false ∧
  (surrogate_pair_free code → merge_pairs code = code) ∧
  ∃ w2,
    run_code mc w = (Ok tt, w2) ∧
    calls w2 = calls w ++ [argv] ∧
    children w2 = children w ∧
    gui_process w2 = gui_process w ∧
    output_area w2 =
    match argv_error argv with
    | Some e => exn_str e
    | None =>
        match installed mc "python3" with
        | None => str "[Errno 2] No such file or directory: 'python3'"
        | Some f =>
            match f [str "-c"; merge_pairs code] files with
            | Returns r => if (returncode r =? 0)%Z then stdout r else stderr r
            | Raises e _ => exn_str e
            end
        end
    end.
Proof.
  intros mc code w.
  assert (descriptor Python ∉ denied w) as Hd by apply not_elem_of_empty.
  assert (Forall code_point code) as Hcp by apply editor_text_str.
  do 5 (split; [reflexivity |]). split; [exact Hd |]. split; [exact Hcp |].
  exact (lowercase_tkinter_runs_inline mc w code eq_refl eq_refl eq_refl eq_refl eq_refl
           Hd Hcp).
Defined.

(** The text [import tkinter], dispatched by the timer: [python3] is run
    with it and what it prints is in the output area; no preview child
    exists. *)
Example lowercase_tkinter_example :
  let w := run_events toy_machine [TextChanged Python (str "import tkinter"); Idle 1500]
             (init ∅ ∅) in
  calls w = [[str "python3"; str "-c"; str "import tkinter"]] ∧
  output_area w = str "-cimport tkinter" ∧
  children w = [].
Proof. repeat split; vm_compute; reflexivity. Qed.

(** ** Compile, run, clean up *)

Lemma run_shell_calls (mc : machine) (cmd : string) (w w' : world)
    (r : result completed) :
  run_shell mc cmd w = (r, w') →
  denied w' = denied w ∧
  calls w' = calls w ++ [[str "/bin/sh"; str "-c"; str cmd]].
Proof. apply subprocess_run_calls. Qed.

Lemma run_argv_calls (mc : machine) (prog : string) (args : list text)
    (w w' : world) (r : result completed) :
  run_argv mc prog args w = (r, w') →
  denied w' = denied w ∧ calls w' = calls w ++ [str prog :: args].
Proof. apply subprocess_run_calls. Qed.

Lemma compile_step_calls (mc : machine) (l : language) (w w' : world)
    (r : result completed) :
  compiled l →
  compile_step mc l w = (r, w') →
  denied w' = denied w ∧ calls w' = calls w ++ [compile_argv l].
Proof.
  intros [-> | [-> | ->]]; unfold compile_step;
    [apply run_shell_calls | apply run_shell_calls | apply run_argv_calls].
Qed.

Lemma run_step_calls (mc : machine) (l : language) (w w' : world)
    (r : result completed) :
  run_step mc l w = (r, w') →
  denied w' = denied w ∧ calls w' = calls w ++ [run_argv_of l].
Proof.
  destruct l; unfold run_step, run_argv_of;
    first [apply run_shell_calls | apply run_argv_calls].
Qed.

(** [if os.path.exists(bin): os.remove(bin)], then [return out]. *)
Lemma cleanup_cases (bin : string) (out : text) (w : world) :
  (present <- path_exists bin ;;
   (if present then remove bin else ret tt) ;; ret out) w =
  match fs w !! bin with
  | None => (Ok out, w)
  | Some _ =>
      if decide (bin ∈ denied w) then (Raise (PermissionError bin), w)
      else (Ok out, set_fs (delete bin (fs w)) w)
  end.
Proof.
  unfold bind at 1. unfold path_exists.
  destruct (fs w !! bin) as [t |] eqn:Hbin.
  - rewrite bool_decide_eq_true_2 by eauto.
    unfold bind, remove, ret. rewrite Hbin. by case_decide.
  - by rewrite bool_decide_eq_false_2 by (by intros [? ?]).
Qed.

(** The clean-up where the binary may be unlinked. *)
Lemma cleanup_removes (bin : string) (out : text) (w : world) :
  bin ∉ denied w →
  ∃ w',
    (present <- path_exists bin ;;
     (if present then remove bin else ret tt) ;; ret out) w = (Ok out, w') ∧
    fs w' !! bin = None ∧ calls w' = calls w.
Proof.
  intros Hden. rewrite cleanup_cases.
  destruct (fs w !! bin) as [t |] eqn:Hbin.
  - rewrite decide_False by done. eexists. split; [reflexivity |].
    cbn. by rewrite lookup_delete_eq.
  - eexists. split; [reflexivity |]. done.
Qed.

(** [execute_code] for a compiled language once the source file is
    written and the compile step has returned. *)
Lemma after_compile (mc : machine) (l : language) (code_file : string)
    (code : text) (w w3 : world) (p : completed) :
  compiled l →
  staged w code_file code →
  code_file ≠ source_name l →
  source_name l ∉ denied w →
  encodable code →
  compile_step mc l (with_source l code w) = (Ok p, w3) →
  execute_code mc l code_file w =
  try_except
    (match l with
     | Rust =>
         if (returncode p =? 0)%Z then
           run_process <- run_step mc Rust ;;
           remove (binary_name Rust) ;;
           ret (output_of run_process)
         else ret (stderr p)
     | _ =>
         output <-
           (if (returncode p =? 0)%Z then
              run_process <- run_step mc l ;;
              ret (output_of run_process)
            else ret (stderr p)) ;;
         present <- path_exists (binary_name l) ;;
         (if present then remove (binary_name l) else ret tt) ;;
         ret output
     end)
    (λ e, ret (exn_str e)) w3.
Proof.
  intros Hl Hst Hne Hsrc Henc Hcomp.
  pose proof (write_source_ok _ _ _ _ Hst Hne Hsrc Henc) as Hws.
  fold (with_source l code w) in Hws.
  unfold execute_code, try_except, execute_body.
  destruct Hl as [-> | [-> | ->]]; cbv zeta; unfold compile_step in Hcomp;
    by rewrite (bind_ok _ _ _ _ _ Hws), (bind_ok _ _ _ _ _ Hcomp).
Qed.

(** C6 (amended). A compiled-language dispatch that reaches its compile
    step and whose compile step exits with a code other than 0 makes no
    other [subprocess.run] call: the binary is not run.  For Rust the
    text returned is the error stream of the compile step.  For C and
    C++ the clean-up comes first: the text returned is that error stream
    where nothing is at the binary path or what is there may be unlinked,
    and the message of the exception [os.remove] raises otherwise. *)
Theorem compile_failure_reports_stderr (mc : machine) (l : language)
    (code_file : string) (code : text) (w w3 : world) (p : completed) :
  compiled l →
  staged w code_file code →
  code_file ≠ source_name l →
  source_name l ∉ denied w →
  encodable code →
  compile_step mc l (with_source l code w) = (Ok p, w3) →
  returncode p ≠ 0%Z →
  ∃ w',
    execute_code mc l code_file w =
    (Ok (match l with
         | Rust => stderr p
         | _ =>
             match fs w3 !! binary_name l with
             | Some _ =>
                 if decide (binary_name l ∈ denied w)
                 then str "[Errno 13] Permission denied: 'appstack_temp/temp_exec'"
                 else stderr p
             | None => stderr p
             end
         end), w') ∧
    calls w' = calls w ++ [compile_argv l].
Proof.
  intros Hl Hst Hne Hsrc Henc Hcomp Hrc.
  rewrite (after_compile mc l code_file code w w3 p Hl Hst Hne Hsrc Henc Hcomp).
  destruct (compile_step_calls mc l _ _ _ Hl Hcomp) as [Hd3 Hc3].
  change (denied (with_source l code w)) with (denied w) in Hd3.
  change (calls (with_source l code w)) with (calls w) in Hc3.
  apply Z.eqb_neq in Hrc. rewrite Hrc. unfold try_except.
  assert (l = Rust ∨ l = C ∨ l = Cpp) as [-> | Hl'] by (unfold compiled in Hl; tauto).
  { eexists. split; [reflexivity | done]. }
  assert ((output <- ret (stderr p) ;;
           present <- path_exists (binary_name l) ;;
           (if present then remove (binary_name l) else ret tt) ;;
           ret output) w3 =
          match fs w3 !! binary_name l with
          | None => (Ok (stderr p), w3)
          | Some _ =>
              if decide (binary_name l ∈ denied w3)
              then (Raise (PermissionError (binary_name l)), w3)
              else (Ok (stderr p), set_fs (delete (binary_name l) (fs w3)) w3)
          end) as Hclean.
  { unfold bind at 1, ret at 1. apply cleanup_cases. }
  assert (exn_str (PermissionError (binary_name l)) =
          str "[Errno 13] Permission denied: 'appstack_temp/temp_exec'") as Hmsg
    by (by destruct Hl' as [-> | ->]).
  destruct Hl' as [-> | ->]; rewrite Hclean, Hd3; clear Hclean;
    (destruct (fs w3 !! _); [destruct (decide _) |]);
    (eexists; split; [first [by rewrite <- Hmsg | reflexivity] | done]).
Qed.

Lemma compile_failure_reports_stderr_witness :
  let mc := toy_machine in
  let code := str "bad" in
  let w := (save_code C code (init ∅ ∅)).2 in
  ∃ p w3,
    compiled C ∧
    staged w (descriptor C) code ∧
    descriptor C ≠ source_name C ∧
    (source_name C ∉ denied w) ∧
    encodable code ∧
    compile_step mc C (with_source C code w) = (Ok p, w3) ∧
    returncode p ≠ 0%Z ∧
    ∃ w',
      execute_code mc C (descriptor C) w =
      (Ok (match C with
           | Rust => stderr p
           | _ =>
               match fs w3 !! binary_name C with
               | Some _ =>
                   if decide (binary_name C ∈ denied w)
                   then str "[Errno 13] Permission denied: 'appstack_temp/temp_exec'"
                   else stderr p
               | None => stderr p
               end
           end), w') ∧
      calls w' = calls w ++ [compile_argv C].
Proof.
  intros mc code w.
  assert (compiled C) as Hl by (by left).
  assert (staged w (descriptor C) code) as Hst.
  { exists (descriptor_text C code), [(str "language", str "C"); (str "code", code)].
    repeat split; vm_compute; reflexivity. }
  assert (descriptor C ≠ source_name C) as Hne by done.
  assert (source_name C ∉ denied w) as Hsrc by apply not_elem_of_empty.
  assert (encodable code) as Henc by reflexivity.
  destruct (compile_step mc C (with_source C code w)) as [[p | e] w3] eqn:Hcomp;
    [| vm_compute in Hcomp; discriminate].
  assert (returncode p ≠ 0%Z) as Hrc.
  { vm_compute in Hcomp. injection Hcomp as <- _. done. }
  exists p, w3. repeat (split; [assumption || reflexivity |]).
  exact (compile_failure_reports_stderr mc C (descriptor C) code w w3 p
           Hl Hst Hne Hsrc Henc Hcomp Hrc).
Defined.

(** A C dispatch whose compile step fails while an old binary that may
    not be unlinked is at the binary path: the text shown is the message
    of the [PermissionError], and the error stream of the compiler is
    lost. *)
Lemma cleanup_failure_hides_stderr :
  let w := run_events toy_machine
             [TabSelected C; TextChanged C (str "bad"); Idle 1500]
             (init {[binary_name C := str "old"]} {[binary_name C]}) in
  dispatched w = [(C, str "bad")] ∧
  calls w = [compile_argv C] ∧
  (∃ p w3,
     compile_step toy_machine C
       (with_source C (str "bad")
          (save_code C (str "bad")
             (init {[binary_name C := str "old"]} {[binary_name C]})).2) = (Ok p, w3) ∧
     returncode p = 1%Z ∧ stderr p = str "error: bad") ∧
  output_area w = str "[Errno 13] Permission denied: 'appstack_temp/temp_exec'" ∧
  output_area w ≠ str "error: bad".
Proof.
  split; [vm_compute; reflexivity |]. split; [vm_compute; reflexivity |].
  split; [eexists _, _; split; [vm_compute; reflexivity | split; reflexivity] |].
  split; [vm_compute; reflexivity | vm_compute; discriminate].
Qed.

(** C2 (amended). A compiled-language dispatch that reaches its compile
    step returns a text whatever happens after it.  C and C++: the binary
    path, which is inside the scratch directory, does not exist
    afterwards when the compile step failed or when the run step
    returned, with whatever exit code, provided the path may be unlinked;
    when the run step raises, the deletion is skipped and the files are
    left as the run left them.  Rust: the binary path is [./temp_code],
    in the working directory and not in the scratch directory; after a
    compile step that failed the files are left as they were, after a run
    step that returned the path does not exist provided it may be
    unlinked, and after a run step that raised the deletion is
    skipped. *)
Theorem binary_removed_after_dispatch (mc : machine) (l : language)
    (code_file : string) (code : text) (w w3 : world) (p : completed) :
  compiled l →
  staged w code_file code →
  code_file ≠ source_name l →
  source_name l ∉ denied w →
  encodable code →
  compile_step mc l (with_source l code w) = (Ok p, w3) →
  (∃ out, (execute_code mc l code_file w).1 = Ok out) ∧
  (returncode p ≠ 0%Z →
   if decide (l = Rust) then fs (execute_code mc l code_file w).2 = fs w3
   else binary_name l ∉ denied w →
        fs (execute_code mc l code_file w).2 !! binary_name l = None) ∧
  (returncode p = 0%Z →
   match run_step mc l w3 with
   | (Ok r, w4) =>
       binary_name l ∉ denied w →
       fs (execute_code mc l code_file w).2 !! binary_name l = None
   | (Raise e, w4) =>
       execute_code mc l code_file w = (Ok (exn_str e), w4)
   end) ∧
  (l ≠ Rust → in_scratch (binary_name l) = true) ∧
  (l = Rust → binary_name l = "./temp_code" ∧ in_scratch (binary_name l) = false).
Proof.
  intros Hl Hst Hne Hsrc Henc Hcomp.
  split.
  { destruct (execute_code_returns mc l code_file w) as (out & w' & -> & _). eauto. }
  rewrite (after_compile mc l code_file code w w3 p Hl Hst Hne Hsrc Henc Hcomp).
  destruct (compile_step_calls mc l _ _ _ Hl Hcomp) as [Hd3 _].
  change (denied (with_source l code w)) with (denied w) in Hd3.
  assert (l = Rust ∨ l ≠ Rust ∧ (l = C ∨ l = Cpp)) as Hcase.
  { destruct Hl as [-> | [-> | ->]]; [right | right | left]; auto. }
  split; [| split; [| split]].
  - intros Hrc. apply Z.eqb_neq in Hrc. unfold try_except.
    destruct Hcase as [-> | [Hnr Hl']].
    + rewrite decide_True by done. by rewrite Hrc.
    + rewrite decide_False by done. intros Hbin. rewrite <- Hd3 in Hbin.
      destruct (cleanup_removes (binary_name l) (stderr p) w3 Hbin) as (w' & Hc & Habs & _).
      destruct Hl' as [-> | ->]; rewrite Hrc; unfold bind at 1, ret at 1;
        by rewrite Hc.
  - intros Hrc. apply Z.eqb_eq in Hrc. unfold try_except.
    destruct (run_step mc l w3) as [[r | e] w4] eqn:Hrun.
    + destruct (run_step_calls mc l _ _ _ Hrun) as [Hd4 _].
      intros Hbin. rewrite <- Hd3, <- Hd4 in Hbin.
      destruct Hcase as [-> | [Hnr Hl']].
      * rewrite Hrc. cbv iota. rewrite (bind_ok _ _ _ _ _ Hrun). unfold bind, remove, ret.
        destruct (fs w4 !! binary_name Rust) as [b |] eqn:Hb; [| done].
        rewrite decide_False by done. cbn. apply lookup_delete_eq.
      * destruct (cleanup_removes (binary_name l) (output_of r) w4 Hbin)
          as (w' & Hc & Habs & _).
        assert ((run_process <- run_step mc l ;; ret (output_of run_process)) w3 =
                (Ok (output_of r), w4)) as Hinner by (unfold bind; by rewrite Hrun).
        destruct Hl' as [-> | ->]; rewrite Hrc; cbv iota;
          rewrite (bind_ok _ _ _ _ _ Hinner); by rewrite Hc.
    + assert (∀ k : completed → M text,
                (run_process <- run_step mc l ;; k run_process) w3 = (Raise e, w4))
        as Hinner by (intros k; unfold bind; by rewrite Hrun).
      destruct Hcase as [-> | [Hnr [-> | ->]]]; rewrite Hrc; cbv iota;
        by rewrite ?(bind_raise _ _ _ _ _ (Hinner _)), ?Hinner.
  - by destruct Hl as [-> | [-> | ->]].
  - by intros ->.
Qed.

Lemma binary_removed_after_dispatch_witness :
  let mc := toy_machine in
  let code := str "ok" in
  let w := (save_code C code (init ∅ ∅)).2 in
  ∃ p w3,
    compiled C ∧
    staged w (descriptor C) code ∧
    descriptor C ≠ source_name C ∧
    (source_name C ∉ denied w) ∧
    encodable code ∧
    compile_step mc C (with_source C code w) = (Ok p, w3) ∧
    (∃ out, (execute_code mc C (descriptor C) w).1 = Ok out) ∧
    (returncode p ≠ 0%Z →
     if decide (C = Rust) then fs (execute_code mc C (descriptor C) w).2 = fs w3
     else binary_name C ∉ denied w →
          fs (execute_code mc C (descriptor C) w).2 !! binary_name C = None) ∧
    (returncode p = 0%Z →
     match run_step mc C w3 with
     | (Ok r, w4) =>
         binary_name C ∉ denied w →
         fs (execute_code mc C (descriptor C) w).2 !! binary_name C = None
     | (Raise e, w4) =>
         execute_code mc C (descriptor C) w = (Ok (exn_str e), w4)
     end) ∧
    (C ≠ Rust → in_scratch (binary_name C) = true) ∧
    (C = Rust → binary_name C = "./temp_code" ∧ in_scratch (binary_name C) = false).
Proof.
  intros mc code w.
  assert (compiled C) as Hl by (by left).
  assert (staged w (descriptor C) code) as Hst.
  { exists (descriptor_text C code), [(str "language", str "C"); (str "code", code)].
    repeat split; vm_compute; reflexivity. }
  assert (descriptor C ≠ source_name C) as Hne by done.
  assert (source_name C ∉ denied w) as Hsrc by apply not_elem_of_empty.
  assert (encodable code) as Henc by reflexivity.
  destruct (compile_step mc C (with_source C code w)) as [[p | e] w3] eqn:Hcomp;
    [| vm_compute in Hcomp; discriminate].
  exists p, w3. do 5 (split; [assumption |]). split; [reflexivity |].
  exact (binary_removed_after_dispatch mc C (descriptor C) code w w3 p
           Hl Hst Hne Hsrc Henc Hcomp).
Defined.

(** The Rust binary is not in the scratch directory, and a Rust dispatch
    whose compile step fails leaves whatever is at that path in place. *)
Lemma rust_binary_kept_outside_scratch :
  let w := run_events toy_machine
             [TabSelected Rust; TextChanged Rust (str "bad"); Idle 1500]
             (init {["./temp_code" := str "old"]} ∅) in
  dispatched w = [(Rust, str "bad")] ∧
  output_area w = str "error: bad" ∧
  fs w !! binary_name Rust = Some (str "old") ∧
  in_scratch (binary_name Rust) = false.
Proof. repeat split; vm_compute; reflexivity. Qed.

(** A C program that compiles and prints a byte that is not UTF-8:
    [subprocess.run] raises when it decodes the output, the text shown is
    the message of that exception, and the binary is still there. *)
Example undecodable_output_keeps_binary :
  let w := run_events toy_machine
             [TabSelected C; TextChanged C (str "ouch"); Idle 1500]
             (init ∅ ∅) in
  output_area w =
    str "'utf-8' codec can't decode byte 0xe9 in position 0: invalid continuation byte" ∧
  fs w !! binary_name C = Some (str "ouch") ∧
  calls w = [compile_argv C; run_argv_of C].
Proof. repeat split; vm_compute; reflexivity. Qed.

(** ** The timer *)

Lemma fire_fields (mc : machine) (w : world) :
  run_timer (fire mc w) = None ∧
  dispatched (fire mc w) = dispatched w ++ [(current w, code_editors w (current w))] ∧
  current (fire mc w) = current w ∧ code_editors (fire mc w) = code_editors w.
Proof.
  unfold fire, call_slot. set (w0 := set_run_timer (Some 1500%nat) w).
  destruct (decide (descriptor (current w0) ∈ denied w0)) as [Hd | Hd].
  - by rewrite (run_code_unstaged mc w0 Hd).
  - rewrite (run_code_staged mc w0 Hd). cbv zeta.
    match goal with |- context [set_fs ?f (fired w0)] => set (w1 := set_fs f (fired w0)) end.
    destruct (wants_preview _ _).
    + destruct (run_gui_preview_frame (code_editors w0 (current w0)) w1)
        as (w' & -> & _ & _ & _ & Ht & Hdi & _ & _ & Hcu & Hce).
      by rewrite Ht, Hdi, Hcu, Hce.
    + pose proof (frames_execute_code mc (current w0) (descriptor (current w0)) w1) as Hf.
      destruct (execute_code _ _ _ w1) as [[out | e] w2]; cbn [snd] in Hf;
        apply machine_only_fields in Hf;
        destruct Hf as (Ht & Hcu & Hce & _ & _ & _ & _ & _ & Hdi & _); cbn;
        by rewrite Ht, Hdi, Hcu, Hce.
Qed.

Lemma tick_stopped (mc : machine) (w : world) :
  run_timer w = None → tick mc w = w.
Proof. intros H. unfold tick. rewrite H. by destruct (crashed w). Qed.

Lemma iter_tick_stopped (mc : machine) (d : nat) (w : world) :
  run_timer w = None → Nat.iter d (tick mc) w = w.
Proof.
  intros H. induction d as [|d IH]; [done |].
  rewrite Nat.iter_succ, IH. by apply tick_stopped.
Qed.

(** While the timer has more than [d] ms left, [d] ms only count it
    down. *)
Lemma iter_tick_lt (mc : machine) (d r : nat) (w : world) :
  crashed w = None → run_timer w = Some r → (d < r)%nat →
  Nat.iter d (tick mc) w = set_run_timer (Some (r - d)%nat) w.
Proof.
  intros Hc Hr. induction d as [|d IH]; intros Hd.
  - rewrite Nat.sub_0_r. destruct w. cbn in *. by subst.
  - rewrite Nat.iter_succ, IH by lia. unfold tick. cbn [crashed run_timer set_run_timer].
    rewrite Hc. destruct (r - d)%nat as [|[|k]] eqn:Hk; [lia | lia |].
    replace (r - S d)%nat with (S k) by lia. done.
Qed.

(** Once the time left has passed, the timer has fired, once. *)
Lemma iter_tick_fire (mc : machine) (d r : nat) (w : world) :
  crashed w = None → run_timer w = Some r → (r ≤ d)%nat → (1 ≤ d)%nat →
  Nat.iter d (tick mc) w = fire mc w.
Proof.
  intros Hc Hr Hrd Hd.
  assert (∃ a b, d = (a + S b)%nat ∧ (b < r ∨ (b = 0 ∧ r = 0))%nat ∧ (r ≤ S b)%nat)
    as (a & b & -> & Hb & Hb').
  { destruct r as [|r]; [exists (d - 1)%nat, 0%nat | exists (d - S r)%nat, r]; lia. }
  rewrite Nat.iter_add, Nat.iter_succ.
  assert (tick mc (Nat.iter b (tick mc) w) = fire mc w) as ->.
  { destruct Hb as [Hb | [-> ->]].
    - rewrite (iter_tick_lt mc b r w Hc Hr Hb). unfold tick.
      cbn [crashed run_timer set_run_timer]. rewrite Hc.
      destruct (r - b)%nat as [|[|k]] eqn:Hk; [lia | reflexivity | lia].
    - change (Nat.iter 0 (tick mc) w) with w. unfold tick. by rewrite Hc, Hr. }
  apply iter_tick_stopped. apply fire_fields.
Qed.

Lemma terminate_fields (w : world) :
  run_timer (terminate w) = run_timer w ∧ dispatched (terminate w) = dispatched w ∧
  crashed (terminate w) = crashed w ∧ current (terminate w) = current w ∧
  code_editors (terminate w) = code_editors w ∧ output_area (terminate w) = output_area w ∧
  gui_process (terminate w) = gui_process w.
Proof.
  unfold terminate. destruct (gui_process w) as [i |] eqn:Hg; [| done].
  by destruct (children w !! i).
Qed.

Lemma clear_output_fields (w : world) :
  run_timer (clear_output w) = run_timer w ∧
  dispatched (clear_output w) = dispatched w ∧
  crashed (clear_output w) = crashed w ∧ current (clear_output w) = current w ∧
  code_editors (clear_output w) = code_editors w ∧ output_area (clear_output w) = [].
Proof.
  unfold clear_output. cbv zeta. destruct (gui_process_running _); [| done].
  destruct (terminate_fields (set_output_area [] w)) as (-> & -> & -> & -> & -> & -> & _).
  done.
Qed.

Lemma child_exit_fields (i : nat) (normal : bool) (w : world) :
  run_timer (child_exit i normal w) = run_timer w ∧
  dispatched (child_exit i normal w) = dispatched w ∧
  crashed (child_exit i normal w) = crashed w ∧
  current (child_exit i normal w) = current w ∧
  code_editors (child_exit i normal w) = code_editors w.
Proof.
  unfold child_exit. destruct (children w !! i) as [c |]; [| done].
  destruct (alive c); [| done]. unfold on_gui_finished. by destruct (exit_status _).
Qed.

Lemma child_started_fields (mc : machine) (i : nat) (w : world) :
  run_timer (child_started mc i w) = run_timer w ∧
  dispatched (child_started mc i w) = dispatched w ∧
  crashed (child_started mc i w) = crashed w ∧
  current (child_started mc i w) = current w ∧
  code_editors (child_started mc i w) = code_editors w ∧
  fs (child_started mc i w) = fs w ∧ calls (child_started mc i w) = calls w ∧
  gui_preview (child_started mc i w) = gui_preview w.
Proof.
  unfold child_started. destruct (children w !! i) as [c |]; [| done].
  by destruct (child_state_of c).
Qed.

Lemma run_events_cons (mc : machine) (e : event) (es : list event) (w : world) :
  run_events mc (e :: es) w = run_events mc es (handle mc e w).
Proof. reflexivity. Qed.

Lemma run_events_snoc (mc : machine) (e : event) (es : list event) (w : world) :
  run_events mc (es ++ [e]) w = handle mc e (run_events mc es w).
Proof. unfold run_events. by rewrite foldl_app. Qed.

Lemma handle_alive (mc : machine) (e : event) (w : world) :
  crashed w = None →
  handle mc e w =
  match e with
  | TextChanged l t =>
      on_code_change
        (set_code_editors (fun l' => if decide (l' = l) then t else code_editors w l') w)
  | TabSelected l => set_current l w
  | ClearClicked => clear_output w
  | ChildExited i normal => child_exit i normal w
  | Idle ms => Nat.iter ms (tick mc) w
  | ChildStarted i => child_started mc i w
  end.
Proof. intros Hc. unfold handle. by rewrite Hc. Qed.

(** During a burst nothing is dispatched and the timer stays armed. *)
Lemma burst_pending (mc : machine) (es : list event) (since : nat) (w : world) :
  crashed w = None →
  run_timer w = Some (1500 - since)%nat →
  (since < 1500)%nat →
  burst since es →
  crashed (run_events mc es w) = None ∧
  (∃ r, run_timer (run_events mc es w) = Some r ∧ (1 ≤ r ≤ 1500)%nat) ∧
  dispatched (run_events mc es w) = dispatched w.
Proof.
  revert since w. induction es as [|e es IH]; intros since w Hc Hr Hs Hb.
  { cbn. split; [done |]. split; [| done]. exists (1500 - since)%nat. split; [done | lia]. }
  rewrite run_events_cons, (handle_alive mc e w Hc).
  destruct e as [l t | l | | i normal | d | i]; cbn [burst] in Hb.
  - destruct (IH 0%nat (on_code_change
        (set_code_editors (fun l' => if decide (l' = l) then t else code_editors w l') w)))
      as (Hc' & Hr' & Hd'); [done | done | lia | done |].
    by rewrite Hd'.
  - destruct (IH since (set_current l w)) as (Hc' & Hr' & Hd'); [done .. |].
    by rewrite Hd'.
  - destruct (clear_output_fields w) as (Ht & Hd & Hcr & _).
    destruct (IH since (clear_output w)) as (Hc' & Hr' & Hd'); [congruence .. | done |].
    by rewrite Hd', Hd.
  - destruct (child_exit_fields i normal w) as (Ht & Hd & Hcr & _).
    destruct (IH since (child_exit i normal w)) as (Hc' & Hr' & Hd');
      [congruence .. | done |].
    by rewrite Hd', Hd.
  - destruct Hb as [Hlt Hb].
    rewrite (iter_tick_lt mc d (1500 - since) w Hc Hr) by lia.
    destruct (IH (since + d)%nat (set_run_timer (Some (1500 - since - d)%nat) w))
      as (Hc' & Hr' & Hd'); [done | | lia | done |].
    + cbn. f_equal. lia.
    + by rewrite Hd'.
  - destruct (child_started_fields mc i w) as (Ht & Hd & Hcr & _).
    destruct (IH since (child_started mc i w)) as (Hc' & Hr' & Hd');
      [congruence .. | done |].
    by rewrite Hd', Hd.
Qed.

(** C1. A change of a document followed by any run of events in which
    no 1.5 s pass without a further change, and then by 1.5 s or more
    without any event: nothing is dispatched during the burst, and
    exactly one dispatch is made afterwards, with the language selected
    and the text of its editor as they are when the timer fires. *)
Theorem debounce_single_dispatch (mc : machine) (w : world) (l : language)
    (t : text) (es : list event) (d : nat) :
  crashed w = None →
  burst 0 es →
  (1500 ≤ d)%nat →
  let wb := run_events mc (TextChanged l t :: es) w in
  let w' := run_events mc (TextChanged l t :: es ++ [Idle d]) w in
  dispatched wb = dispatched w ∧
  dispatched w' = dispatched w ++ [(current wb, code_editors wb (current wb))] ∧
  run_timer w' = None.
Proof.
  intros Hc Hb Hd wb w'.
  assert (w' = handle mc (Idle d) wb) as ->.
  { unfold w', wb. by rewrite app_comm_cons, run_events_snoc. }
  unfold wb. rewrite run_events_cons, (handle_alive mc _ w Hc).
  match goal with |- context [run_events mc es ?x] => set (w0 := x) end.
  destruct (burst_pending mc es 0 w0) as (Hc' & (r & Hr' & Hr1) & Hd'); [done .. | lia | done |].
  split; [by rewrite Hd' |].
  rewrite (handle_alive mc _ _ Hc'), (iter_tick_fire mc d r _ Hc' Hr') by lia.
  destruct (fire_fields mc (run_events mc es w0)) as (Ht & Hdi & _).
  by rewrite Ht, Hdi, Hd'.
Qed.

Lemma debounce_single_dispatch_witness :
  let mc := toy_machine in
  let w := init ∅ ∅ in
  let es := [Idle 700; TextChanged Go (str "package main"); Idle 1499; TabSelected Go] in
  crashed w = None ∧
  burst 0 es ∧
  (1500 ≤ 1500)%nat ∧
  let wb := run_events mc (TextChanged Python (str "print(1)") :: es) w in
  let w' := run_events mc (TextChanged Python (str "print(1)") :: es ++ [Idle 1500]) w in
  dispatched wb = dispatched w ∧
  dispatched w' = dispatched w ++ [(current wb, code_editors wb (current wb))] ∧
  run_timer w' = None.
Proof.
  intros mc w es.
  assert (burst 0 es) as Hb by (cbn; lia).
  split; [reflexivity |]. split; [exact Hb |]. split; [lia |].
  exact (debounce_single_dispatch mc w Python (str "print(1)") es 1500
           eq_refl Hb (le_n 1500)).
Defined.

(** What is dispatched is what is selected when the timer fires, not
    what was typed: here the change is made to the Python document, the
    Go tab is selected before the timer fires, and Go is dispatched. *)
Example dispatch_reads_at_fire_time :
  dispatched
    (run_events toy_machine
       [TextChanged Go (str "package main"); Idle 2000;
        TextChanged Python (str "print(1)"); Idle 1000; TabSelected Go; Idle 500]
       (init ∅ ∅)) =
  [(Python, []); (Go, str "package main")].
Proof. vm_compute. reflexivity. Qed.

(** ** Clear *)

Lemma terminate_signals (w : world) (i : nat) (c : child) :
  gui_process w = Some i →
  children w !! i = Some c →
  children (terminate w) !! i =
  Some {| child_code := child_code c; child_state_of := Signalled |}.
Proof.
  intros Hg Hc. unfold terminate. rewrite Hg, Hc. cbn.
  apply list_lookup_insert_eq. by eapply lookup_lt_Some.
Qed.

(** C4 (amended). A clear request leaves the timer as it is: it empties
    the output area and asks the preview child the widget drives to end,
    if that child is reported as running.  A dispatch that was pending is
    still made when the rest of the 1.5 s has passed. *)
Theorem clear_keeps_timer (mc : machine) (w : world) :
  run_timer (clear_output w) = run_timer w ∧
  output_area (clear_output w) = [] ∧
  (∀ i c, gui_process w = Some i → children w !! i = Some c → alive c = true →
     children (clear_output w) !! i =
     Some {| child_code := child_code c; child_state_of := Signalled |}) ∧
  (∀ r d, crashed w = None → run_timer w = Some r → (r ≤ d)%nat → (1 ≤ d)%nat →
     dispatched (run_events mc [ClearClicked; Idle d] w) =
     dispatched w ++ [(current w, code_editors w (current w))]).
Proof.
  destruct (clear_output_fields w) as (Ht & Hdi & Hcr & Hcu & Hce & Ho).
  split; [done |]. split; [done |]. split.
  - intros i c Hg Hc Ha. unfold clear_output. cbv zeta.
    assert (gui_process_running (set_output_area [] w) = true) as ->.
    { unfold gui_process_running. cbn. by rewrite Hg, Hc. }
    by apply terminate_signals.
  - intros r d Hc Hr Hrd Hd.
    rewrite !run_events_cons, (handle_alive mc _ w Hc). cbn [run_events foldl].
    rewrite handle_alive by congruence.
    rewrite (iter_tick_fire mc d r) by congruence.
    destruct (fire_fields mc (clear_output w)) as (_ & -> & _).
    by rewrite Hdi, Hcu, Hce.
Qed.

(** A clear request half a second after a change: the timer goes on, and
    the dispatch is made a second later. *)
Lemma clear_does_not_cancel :
  let w := run_events toy_machine
             [TextChanged Python (str "print(1)"); Idle 500; ClearClicked]
             (init ∅ ∅) in
  run_timer w = Some 1000%nat ∧
  dispatched w = [] ∧
  dispatched (run_events toy_machine [Idle 1000] w) = [(Python, str "print(1)")].
Proof. repeat split; vm_compute; reflexivity. Qed.

(** ** The preview child *)

Lemma terminate_length (w : world) :
  length (children (terminate w)) = length (children w).
Proof.
  unfold terminate. destruct (gui_process w) as [i |]; [| done].
  destruct (children w !! i); [| done]. cbn. apply length_insert.
Qed.

(** A start appends a child in the state [Starting], which the widget
    then drives; the children before it keep their places. *)
Lemma run_gui_preview_children (code : text) (w : world) :
  children (run_gui_preview code w).2 =
    children (if gui_process_running w then terminate w else w) ++
    [{| child_code := code; child_state_of := Starting |}] ∧
  length (children (if gui_process_running w then terminate w else w)) =
    length (children w) ∧
  gui_process (run_gui_preview code w).2 = Some (length (children w)).
Proof.
  assert (length (children (if gui_process_running w then terminate w else w)) =
          length (children w)) as Hlen.
  { destruct (gui_process_running w); [apply terminate_length | done]. }
  split; [done |]. split; [done |]. unfold run_gui_preview. cbn. by rewrite Hlen.
Qed.

(** A driven child that is still starting is not in the state
    [Running]. *)
Lemma starting_not_running (w : world) (i : nat) (c : child) :
  gui_process w = Some i → children w !! i = Some c →
  child_state_of c = Starting → gui_process_running w = false.
Proof.
  intros Hg Hc Hs. unfold gui_process_running, alive. by rewrite Hg, Hc, Hs.
Qed.

(** C8 (amended). Starting a preview asks the child the widget drives to
    end when [QProcess] reports it as running, and does not wait for it;
    a driven child that is still starting is left as it is.  After two
    starts made one right after the other, the widget drives the child
    that carries the second text, and the child of the first start has
    not been asked to end.  After two starts with the report that the
    first child runs in between, the child of the first start has been
    asked to end and has not been reported to have ended. *)
Theorem preview_exclusive (mc : machine) :
  (∀ w code i c,
     gui_process w = Some i → children w !! i = Some c → alive c = true →
     children (run_gui_preview code w).2 !! i =
     Some {| child_code := child_code c; child_state_of := Signalled |}) ∧
  (∀ w code i c,
     gui_process w = Some i → children w !! i = Some c →
     child_state_of c = Starting →
     children (run_gui_preview code w).2 !! i = Some c) ∧
  (∀ w t1 t2,
     let n := length (children w) in
     let w2 := (run_gui_preview t2 (run_gui_preview t1 w).2).2 in
     gui_process w2 = Some (S n) ∧
     children w2 !! S n = Some {| child_code := t2; child_state_of := Starting |} ∧
     children w2 !! n = Some {| child_code := t1; child_state_of := Starting |}) ∧
  (∀ w t1 t2,
     installed mc "python3" ≠ None →
     let n := length (children w) in
     let w2 := (run_gui_preview t2 (child_started mc n (run_gui_preview t1 w).2)).2 in
     gui_process w2 = Some (S n) ∧
     children w2 !! S n = Some {| child_code := t2; child_state_of := Starting |} ∧
     children w2 !! n = Some {| child_code := t1; child_state_of := Signalled |} ∧
     length (filter (λ c, is_process c = true) (drop n (children w2))) = 2%nat).
Proof.
  assert (∀ w t1,
            let wA := (run_gui_preview t1 w).2 in
            gui_process wA = Some (length (children w)) ∧
            children wA !! length (children w) =
              Some {| child_code := t1; child_state_of := Starting |} ∧
            length (children wA) = S (length (children w))) as Hfirst.
  { intros w t1 wA. destruct (run_gui_preview_children t1 w) as (Hch & Hlen & Hg).
    fold wA in Hch, Hg. split; [done |]. rewrite Hch. split.
    - rewrite <- Hlen. by apply list_lookup_middle.
    - rewrite length_app, Hlen. cbn. lia. }
  split; [| split; [| split]].
  - intros w code i c Hg Hc Ha. unfold run_gui_preview. cbn.
    assert (gui_process_running w = true) as ->.
    { unfold gui_process_running. by rewrite Hg, Hc. }
    rewrite lookup_app_l.
    + by apply terminate_signals.
    + rewrite terminate_length. by eapply lookup_lt_Some.
  - intros w code i c Hg Hc Hs. unfold run_gui_preview. cbn.
    rewrite (starting_not_running w i c Hg Hc Hs).
    rewrite lookup_app_l; [done | by eapply lookup_lt_Some].
  - intros w t1 t2 n w2. destruct (Hfirst w t1) as (HgA & HcA & HlenA).
    fold n in HgA, HcA, HlenA.
    set (wA := (run_gui_preview t1 w).2) in *.
    destruct (run_gui_preview_children t2 wA) as (Hch & Hlen & Hg).
    fold w2 in Hch, Hg.
    rewrite (starting_not_running wA n _ HgA HcA eq_refl) in Hch.
    rewrite Hg, HlenA. split; [done |]. rewrite Hch. split.
    + rewrite <- HlenA. by apply list_lookup_middle.
    + rewrite lookup_app_l by lia. done.
  - intros w t1 t2 Hpy n w2. destruct (Hfirst w t1) as (HgA & HcA & HlenA).
    fold n in HgA, HcA, HlenA.
    set (wA := (run_gui_preview t1 w).2) in *.
    set (wB := child_started mc n wA) in *.
    assert (children wB = <[n := {| child_code := t1; child_state_of := Running |}]>
                            (children wA) ∧ gui_process wB = Some n) as [HchB HgB].
    { unfold wB, child_started. rewrite HcA. cbn.
      by destruct (installed mc "python3"). }
    assert (children wB !! n = Some {| child_code := t1; child_state_of := Running |})
      as HcB.
    { rewrite HchB. apply list_lookup_insert_eq. lia. }
    assert (length (children wB) = S n) as HlenB by by rewrite HchB, length_insert.
    assert (gui_process_running wB = true) as Hrun.
    { unfold gui_process_running. by rewrite HgB, HcB. }
    destruct (run_gui_preview_children t2 wB) as (Hch & Hlen & Hg).
    fold w2 in Hch, Hg. rewrite Hrun in Hch, Hlen.
    rewrite Hg, HlenB. split; [done |].
    assert (children (terminate wB) !! n =
            Some {| child_code := t1; child_state_of := Signalled |}) as Hsig
      by apply (terminate_signals wB n _ HgB HcB).
    assert (children w2 !! S n = Some {| child_code := t2; child_state_of := Starting |})
      as H2.
    { rewrite Hch, <- HlenB, <- Hlen. by apply list_lookup_middle. }
    assert (children w2 !! n = Some {| child_code := t1; child_state_of := Signalled |})
      as H1.
    { rewrite Hch, lookup_app_l by lia. exact Hsig. }
    split; [done |]. split; [done |].
    assert (length (children w2) = S (S n)) as Hlen2.
    { rewrite Hch, length_app, Hlen, HlenB. cbn. lia. }
    assert (drop n (children w2) =
            [{| child_code := t1; child_state_of := Signalled |};
             {| child_code := t2; child_state_of := Starting |}]) as ->; [| done].
    apply list_eq. intros k. rewrite lookup_drop.
    destruct k as [|[|k]].
    + by rewrite Nat.add_0_r.
    + by replace (n + 1)%nat with (S n) by lia.
    + transitivity (@None child); [apply lookup_ge_None_2; lia | done].
Qed.

(** Two previews, started by the timer, of programs that show a window
    until it is closed; the first is reported to run before the second
    is started.  After the second start the first child has been asked
    to end and both children are processes. *)
Lemma two_previews_both_alive :
  let a := str "from PyQt6.QtWidgets import *; q = QApplication([]); w = QLabel('a'); w.show(); q.exec()" in
  let b := str "from PyQt6.QtWidgets import *; q = QApplication([]); w = QLabel('b'); w.show(); q.exec()" in
  let w := run_events toy_machine
             [TextChanged Python a; Idle 1500; ChildStarted 0;
              TextChanged Python b; Idle 1500]
             (init ∅ ∅) in
  children w =
  [{| child_code := a; child_state_of := Signalled |};
   {| child_code := b; child_state_of := Starting |}] ∧
  length (List.filter is_process (children w)) = 2%nat.
Proof. split; vm_compute; reflexivity. Qed.

(** The same two previews with the second start made before the first
    child is reported to run: the first child is never asked to end, and
    both run. *)
Example starting_child_is_not_replaced :
  let a := str "from PyQt6.QtWidgets import *; q = QApplication([]); w = QLabel('a'); w.show(); q.exec()" in
  let w := (run_gui_preview a (run_gui_preview a (init ∅ ∅)).2).2 in
  child_state_of <$> children (run_events toy_machine [ChildStarted 0; ChildStarted 1] w) =
  [Running; Running].
Proof. vm_compute. reflexivity. Qed.

(** ** Staging *)

Lemma descriptor_not_source (l : language) : descriptor l ≠ source_name l.
Proof. by destruct l. Qed.

(** C9 (amended). Staging writes the language and the text into the
    descriptor file of the language.  For a text in which no high
    surrogate is directly followed by a low surrogate, as is every text
    an editor returns, reading the descriptor back gives the text: it is
    the argument [execute_code] passes to the interpreter for Python, and
    the text it writes to the source file of any other language when
    UTF-8 can encode it; when it cannot, the write raises and the source
    file is left empty. *)
Theorem descriptor_round_trip (mc : machine) (l : language) (code : text) (w : world) :
  editor_text code →
  descriptor l ∉ denied w →
  ∃ w1,
    save_code l code w = (Ok (descriptor l), w1) ∧
    fs w1 !! descriptor l = Some (descriptor_text l code) ∧
    json_loads (descriptor_text l code) =
      Some [(str "language", str (lang_name l)); (str "code", code)] ∧
    (∃ d, json_load (descriptor l) w1 = (Ok d, w1) ∧ getitem d "code" w1 = (Ok code, w1)) ∧
    (l ≠ Python → source_name l ∉ denied w →
     match encode_error code with
     | None =>
         write_source (source_name l) (descriptor l) w1 = (Ok tt, with_source l code w1) ∧
         fs (with_source l code w1) !! source_name l = Some code
     | Some e =>
         write_source (source_name l) (descriptor l) w1 =
         (Raise e, set_fs (<[source_name l := []]> (fs w1)) w1)
     end) ∧
    (l = Python →
     calls (execute_code mc l (descriptor l) w1).2 =
     calls w ++ [[str "python3"; str "-c"; code]]).
Proof.
  intros Hcode Hden. eexists. split; [by apply save_code_ok |].
  set (w1 := set_fs _ w).
  assert (fs w1 !! descriptor l = Some (descriptor_text l code)) as Hfile.
  { unfold w1. cbn. apply lookup_insert_eq. }
  assert (json_loads (descriptor_text l code) =
          Some [(str "language", str (lang_name l)); (str "code", code)]) as Hload.
  { apply json_loads_dumps; [done |].
    apply Forall_cons. split; [split; apply editor_text_str |].
    apply Forall_cons. split; [split; [apply editor_text_str | done] |].
    apply Forall_nil_2. }
  assert (dict_get (str "code") [(str "language", str (lang_name l)); (str "code", code)] =
          Some code) as Hget by reflexivity.
  pose proof (json_load_ok _ _ _ w1 Hfile Hload) as Hjl.
  pose proof (getitem_ok _ "code" _ w1 Hget) as Hgi.
  assert (staged w1 (descriptor l) code) as Hst by by eexists _, _.
  split; [done |]. split; [done |]. split; [eauto |]. split.
  - intros _ Hsrc. destruct (encode_error code) as [e |] eqn:Henc.
    + apply (write_source_unencodable _ _ code); [done | apply descriptor_not_source | done..].
    + split; [| unfold with_source; cbn; apply lookup_insert_eq].
      apply write_source_ok; [done | apply descriptor_not_source | done..].
  - intros ->. unfold execute_code, try_except, execute_body.
    rewrite (bind_ok _ _ _ _ _ Hjl), (bind_ok _ _ _ _ _ Hgi). unfold bind.
    destruct (run_argv mc (language_cmds Python) [str "-c"; code] w1)
      as [[r | e] w2] eqn:Hrun;
      destruct (run_argv_calls _ _ _ _ _ _ Hrun) as [_ Hc]; exact Hc.
Qed.

Lemma descriptor_round_trip_witness :
  let mc := toy_machine in
  let code := [104; 233; 10; 0x1f600; 0xd800] in
  let w := init ∅ ∅ in
  editor_text code ∧
  (descriptor Go ∉ denied w) ∧
  ∃ w1,
    save_code Go code w = (Ok (descriptor Go), w1) ∧
    fs w1 !! descriptor Go = Some (descriptor_text Go code) ∧
    json_loads (descriptor_text Go code) =
      Some [(str "language", str (lang_name Go)); (str "code", code)] ∧
    (∃ d, json_load (descriptor Go) w1 = (Ok d, w1) ∧ getitem d "code" w1 = (Ok code, w1)) ∧
    (Go ≠ Python → source_name Go ∉ denied w →
     match encode_error code with
     | None =>
         write_source (source_name Go) (descriptor Go) w1 = (Ok tt, with_source Go code w1) ∧
         fs (with_source Go code w1) !! source_name Go = Some code
     | Some e =>
         write_source (source_name Go) (descriptor Go) w1 =
         (Raise e, set_fs (<[source_name Go := []]> (fs w1)) w1)
     end) ∧
    (Go = Python →
     calls (execute_code mc Go (descriptor Go) w1).2 =
     calls w ++ [[str "python3"; str "-c"; code]]).
Proof.
  intros mc code w.
  assert (editor_text code) as Hcode.
  { split.
    - repeat constructor; unfold code_point; lia.
    - cbn. repeat split; intros [Hh Hl]; vm_compute in Hh, Hl; discriminate. }
  assert (descriptor Go ∉ denied w) as Hden by apply not_elem_of_empty.
  split; [exact Hcode |]. split; [exact Hden |].
  exact (descriptor_round_trip mc Go code w Hcode Hden).
Defined.

(** Two texts that do not come back.  A text with a high surrogate
    directly followed by a low surrogate is read back with the two merged
    into one code point, and that is what the source file holds.  A text
    with a surrogate on its own is read back as it is, but cannot be
    written: the source file is left empty and the text shown is the
    message of the [UnicodeEncodeError]. *)
Lemma round_trip_loses_surrogates :
  let pair := [104; 0xd83d; 0xde00] in
  let lone := [104; 0xd800] in
  let run code := run_events toy_machine [TabSelected Go; TextChanged Go code; Idle 1500]
                    (init ∅ ∅) in
  dispatched (run pair) = [(Go, pair)] ∧
  fs (run pair) !! source_name Go = Some [104; 0x1f600] ∧
  dispatched (run lone) = [(Go, lone)] ∧
  fs (run lone) !! source_name Go = Some [] ∧
  calls (run lone) = [] ∧
  output_area (run lone) =
    str "'utf-8' codec can't encode character '\ud800' in position 1: surrogates not allowed".
Proof. repeat split; vm_compute; reflexivity. Qed.

(** * Further properties of the dispatcher *)

(** ** The interpreter path *)

(** The one argument that is not a fixed word is converted exactly when
    it holds no NUL and no surrogate but those that stand for a byte. *)
Lemma utf8_error_lenient_none (i : nat) (s : text) :
  utf8_error true i s = None ↔ Forall (λ c, surrogate c = true → escapable c = true) s.
Proof.
  revert i. induction s as [|c s IH]; intros i; [by split; [intros; apply Forall_nil_2 |] |].
  cbn [utf8_error]. rewrite Forall_cons.
  destruct (surrogate c) eqn:Hs; destruct (escapable c) eqn:He; cbn.
  - rewrite IH. tauto.
  - split; [done | intros [H _]; by specialize (H eq_refl)].
  - rewrite IH. tauto.
  - rewrite IH. tauto.
Qed.

Lemma no_nul (s : text) : existsb (N.eqb 0) s = false ↔ Forall (λ c, c ≠ 0) s.
Proof.
  induction s as [|c s IH]; [by split; [intros; apply Forall_nil_2 |] |].
  cbn [existsb]. rewrite Forall_cons, orb_false_iff, IH.
  destruct (N.eqb_spec 0 c) as [<- | Hn].
  - split; intros [H1 H2]; [discriminate | done].
  - split; intros [H1 H2]; (split; [first [done | congruence] | done]).
Qed.

Lemma python_argv_converted (code : text) :
  argv_error [str "python3"; str "-c"; code] = None ↔
  Forall (λ c, c ≠ 0 ∧ (surrogate c = true → escapable c = true)) code.
Proof.
  rewrite !argv_error_cons by (vm_compute; reflexivity). cbn [argv_error].
  rewrite Forall_and, <- utf8_error_lenient_none with (i := 0%nat), <- no_nul.
  destruct (utf8_error true 0 code) as [[[c a] b] |]; [by split; [| intros [_ ?]] |].
  destruct (existsb (N.eqb 0) code); [by split; [| intros [? _]] | done].
Qed.

(** Python: the text read from the descriptor is the program given to
    [python3 -c], and no source file is written.  A text with a NUL, or
    with a surrogate that does not stand for a byte, is refused before
    anything is started, and the result is the message of the exception;
    so it is without a [python3].  Otherwise the result is the standard
    output of the process when it exits with 0 and its standard error
    when it exits with another code, or the message of the exception
    where the call raises after the start. *)
Theorem python_dispatch (mc : machine) (code_file : string) (code : text) (w : world) :
  staged w code_file code →
  let argv := [str "python3"; str "-c"; code] in
  let w1 := set_calls (calls w ++ [argv]) w in
  (argv_error argv = None ↔
   Forall (λ c, c ≠ 0 ∧ (surrogate c = true → escapable c = true)) code) ∧
  execute_code mc Python code_file w =
  match argv_error argv with
  | Some e => (Ok (exn_str e), w1)
  | None =>
      match installed mc "python3" with
      | None => (Ok (str "[Errno 2] No such file or directory: 'python3'"), w1)
      | Some f =>
          match f [str "-c"; code] (fs w) with
          | Returns r =>
              (Ok (if (returncode r =? 0)%Z then stdout r else stderr r),
               set_fs (files_after r) w1)
          | Raises e files => (Ok (exn_str e), set_fs files w1)
          end
      end
  end.
Proof.
  intros Hst argv w1. split; [apply python_argv_converted |].
  apply (execute_python mc code_file code w Hst).
Qed.

Lemma python_dispatch_witness :
  let mc := toy_machine in
  let code := str "print(1)" in
  let w := (save_code Python code (init ∅ ∅)).2 in
  staged w (descriptor Python) code ∧
  let argv := [str "python3"; str "-c"; code] in
  let w1 := set_calls (calls w ++ [argv]) w in
  (argv_error argv = None ↔
   Forall (λ c, c ≠ 0 ∧ (surrogate c = true → escapable c = true)) code) ∧
  execute_code mc Python (descriptor Python) w =
  match argv_error argv with
  | Some e => (Ok (exn_str e), w1)
  | None =>
      match installed mc "python3" with
      | None => (Ok (str "[Errno 2] No such file or directory: 'python3'"), w1)
      | Some f =>
          match f [str "-c"; code] (fs w) with
          | Returns r =>
              (Ok (if (returncode r =? 0)%Z then stdout r else stderr r),
               set_fs (files_after r) w1)
          | Raises e files => (Ok (exn_str e), set_fs files w1)
          end
      end
  end.
Proof.
  intros mc code w.
  assert (staged w (descriptor Python) code) as Hst.
  { exists (descriptor_text Python code),
      [(str "language", str "Python"); (str "code", code)].
    repeat split; vm_compute; reflexivity. }
  split; [exact Hst |].
  exact (python_dispatch mc (descriptor Python) code w Hst).
Defined.

(** A Python text with a NUL in it, and one with a surrogate: no process
    is started, and the text shown is the message of the exception. *)
Example python_text_refused :
  let run code := run_events toy_machine [TextChanged Python code; Idle 1500] (init ∅ ∅) in
  output_area (run (str "print(1)" ++ [0])) = str "embedded null byte" ∧
  output_area (run [112; 0xdc80; 0xd800]) =
    str "'utf-8' codec can't encode character '\ud800' in position 2: surrogates not allowed".
Proof. split; vm_compute; reflexivity. Qed.

(** ** The compile-then-run path *)

Lemma binary_not_source (l : language) : binary_name l ≠ source_name l.
Proof. by destruct l. Qed.

(** The program of the compile step is not there: [rustc] for Rust, the
    shell for C and C++, whose command line is handed to [/bin/sh].  The
    start raises, the result is the message of the [FileNotFoundError]
    that names the program, the source file is written and nothing else
    is run; the clean-up of C and C++ is skipped. *)
Theorem compiler_missing (mc : machine) (l : language) (code_file : string)
    (code : text) (w : world) :
  compiled l →
  staged w code_file code →
  code_file ≠ source_name l →
  source_name l ∉ denied w →
  encodable code →
  match l with
  | Rust => installed mc "rustc" = None
  | _ => shell mc = None
  end →
  execute_code mc l code_file w =
  (Ok (match l with
       | Rust => str "[Errno 2] No such file or directory: 'rustc'"
       | _ => str "[Errno 2] No such file or directory: '/bin/sh'"
       end),
   set_calls (calls w ++ [compile_argv l]) (with_source l code w)) ∧
  fs (with_source l code w) !! source_name l = Some code.
Proof.
  intros Hl Hst Hne Hsrc Henc Hi.
  split; [| unfold with_source; cbn; apply lookup_insert_eq].
  pose proof (write_source_ok _ _ _ _ Hst Hne Hsrc Henc) as Hws.
  fold (with_source l code w) in Hws.
  unfold execute_code, try_except, execute_body.
  destruct Hl as [-> | [-> | ->]]; cbv zeta; rewrite (bind_ok _ _ _ _ _ Hws);
    unfold bind at 1; unfold run_shell, run_argv;
    rewrite subprocess_run_converted by (vm_compute; reflexivity);
    unfold resolve; cbn [has_slash]; rewrite ?Hi; done.
Qed.

Lemma compiler_missing_witness :
  let mc := bare_machine in
  let code := str "int main() {}" in
  let w := (save_code Cpp code (init ∅ ∅)).2 in
  compiled Cpp ∧
  staged w (descriptor Cpp) code ∧
  descriptor Cpp ≠ source_name Cpp ∧
  (source_name Cpp ∉ denied w) ∧
  encodable code ∧
  match Cpp with
  | Rust => installed mc "rustc" = None
  | _ => shell mc = None
  end ∧
  execute_code mc Cpp (descriptor Cpp) w =
  (Ok (match Cpp with
       | Rust => str "[Errno 2] No such file or directory: 'rustc'"
       | _ => str "[Errno 2] No such file or directory: '/bin/sh'"
       end),
   set_calls (calls w ++ [compile_argv Cpp]) (with_source Cpp code w)) ∧
  fs (with_source Cpp code w) !! source_name Cpp = Some code.
Proof.
  intros mc code w.
  assert (compiled Cpp) as Hl by (right; by left).
  assert (staged w (descriptor Cpp) code) as Hst.
  { exists (descriptor_text Cpp code), [(str "language", str "C++"); (str "code", code)].
    repeat split; vm_compute; reflexivity. }
  assert (descriptor Cpp ≠ source_name Cpp) as Hne by done.
  assert (source_name Cpp ∉ denied w) as Hsrc by apply not_elem_of_empty.
  assert (encodable code) as Henc by reflexivity.
  do 4 (split; [assumption |]). split; [reflexivity |]. split; [reflexivity |].
  exact (compiler_missing mc Cpp (descriptor Cpp) code w Hl Hst Hne Hsrc Henc eq_refl).
Defined.

(** C and C++, the compile step having exited with 0: the binary is run
    through the shell.  When that call returns, the result is the
    standard output of the program when it exits with 0 and its standard
    error otherwise, and the binary is gone afterwards.  When that call
    raises, the result is the message of the exception.  Either way two
    [subprocess.run] calls are made. *)
Theorem compiled_program_runs (mc : machine) (l : language) (code_file : string)
    (code : text) (w w3 : world) (p : completed) :
  l = C ∨ l = Cpp →
  staged w code_file code →
  code_file ≠ source_name l →
  source_name l ∉ denied w →
  encodable code →
  compile_step mc l (with_source l code w) = (Ok p, w3) →
  returncode p = 0%Z →
  binary_name l ∉ denied w →
  match run_shell mc (binary_name l) w3 with
  | (Ok r, w4) =>
      ∃ w',
        execute_code mc l code_file w =
          (Ok (if (returncode r =? 0)%Z then stdout r else stderr r), w') ∧
        calls w' =
          calls w ++ [compile_argv l; [str "/bin/sh"; str "-c"; str (binary_name l)]] ∧
        fs w' !! binary_name l = None
  | (Raise e, w4) =>
      execute_code mc l code_file w = (Ok (exn_str e), w4) ∧
      calls w4 =
        calls w ++ [compile_argv l; [str "/bin/sh"; str "-c"; str (binary_name l)]]
  end.
Proof.
  intros Hl Hst Hne Hsrc Henc Hcomp Hrc Hbin.
  assert (compiled l) as Hl' by (unfold compiled; tauto).
  rewrite (after_compile mc l code_file code w w3 p Hl' Hst Hne Hsrc Henc Hcomp).
  destruct (compile_step_calls mc l _ _ _ Hl' Hcomp) as [Hd3 Hc3].
  change (denied (with_source l code w)) with (denied w) in Hd3.
  change (calls (with_source l code w)) with (calls w) in Hc3.
  apply Z.eqb_eq in Hrc.
  assert (run_step mc l = run_shell mc (binary_name l)) as Hstep
    by (by destruct Hl as [-> | ->]).
  destruct (run_shell mc (binary_name l) w3) as [[r | e] w4] eqn:Hrun;
    destruct (run_shell_calls _ _ _ _ _ Hrun) as [Hd4 Hc4];
    assert (calls w4 = calls w ++
              [compile_argv l; [str "/bin/sh"; str "-c"; str (binary_name l)]]) as Hcalls
      by (by rewrite Hc4, Hc3, <- app_assoc).
  - assert (binary_name l ∉ denied w4) as Hbin4 by by rewrite Hd4, Hd3.
    destruct (cleanup_removes (binary_name l) (output_of r) w4 Hbin4)
      as (w' & Hc & Habs & Hcw).
    assert ((run_process <- run_step mc l ;; ret (output_of run_process)) w3 =
            (Ok (output_of r), w4)) as Hinner by (unfold bind; by rewrite Hstep, Hrun).
    exists w'. split; [| split; [by rewrite Hcw | done]].
    unfold try_except.
    destruct Hl as [-> | ->]; rewrite Hrc; cbv iota;
      rewrite (bind_ok _ _ _ _ _ Hinner); by rewrite Hc.
  - split; [| done].
    assert (∀ k : completed → M text,
              (run_process <- run_step mc l ;; k run_process) w3 = (Raise e, w4))
      as Hinner by (intros k; unfold bind; by rewrite Hstep, Hrun).
    unfold try_except.
    destruct Hl as [-> | ->]; rewrite Hrc; cbv iota;
      by rewrite (bind_raise _ _ _ _ _ (Hinner _)).
Qed.

Lemma compiled_program_runs_witness :
  let mc := toy_machine in
  let code := str "ok" in
  let w := (save_code Cpp code (init ∅ ∅)).2 in
  ∃ p w3,
    (Cpp = C ∨ Cpp = Cpp) ∧
    staged w (descriptor Cpp) code ∧
    descriptor Cpp ≠ source_name Cpp ∧
    (source_name Cpp ∉ denied w) ∧
    encodable code ∧
    compile_step mc Cpp (with_source Cpp code w) = (Ok p, w3) ∧
    returncode p = 0%Z ∧
    (binary_name Cpp ∉ denied w) ∧
    match run_shell mc (binary_name Cpp) w3 with
    | (Ok r, w4) =>
        ∃ w',
          execute_code mc Cpp (descriptor Cpp) w =
            (Ok (if (returncode r =? 0)%Z then stdout r else stderr r), w') ∧
          calls w' =
            calls w ++ [compile_argv Cpp; [str "/bin/sh"; str "-c"; str (binary_name Cpp)]] ∧
          fs w' !! binary_name Cpp = None
    | (Raise e, w4) =>
        execute_code mc Cpp (descriptor Cpp) w = (Ok (exn_str e), w4) ∧
        calls w4 =
          calls w ++ [compile_argv Cpp; [str "/bin/sh"; str "-c"; str (binary_name Cpp)]]
    end.
Proof.
  intros mc code w.
  assert (staged w (descriptor Cpp) code) as Hst.
  { exists (descriptor_text Cpp code), [(str "language", str "C++"); (str "code", code)].
    repeat split; vm_compute; reflexivity. }
  assert (descriptor Cpp ≠ source_name Cpp) as Hne by done.
  assert (source_name Cpp ∉ denied w) as Hsrc by apply not_elem_of_empty.
  assert (binary_name Cpp ∉ denied w) as Hbin by apply not_elem_of_empty.
  assert (encodable code) as Henc by reflexivity.
  destruct (compile_step mc Cpp (with_source Cpp code w)) as [[p | e] w3] eqn:Hcomp;
    [| vm_compute in Hcomp; discriminate].
  assert (returncode p = 0%Z) as Hrc.
  { vm_compute in Hcomp. injection Hcomp as <- _. done. }
  exists p, w3. split; [by right |]. do 4 (split; [assumption |]).
  split; [reflexivity |]. do 2 (split; [assumption |]).
  exact (compiled_program_runs mc Cpp (descriptor Cpp) code w w3 p
           (or_intror eq_refl) Hst Hne Hsrc Henc Hcomp Hrc Hbin).
Defined.

(** A deletion that fails takes the place of the result.  C and C++: the
    compile step has failed, something is at the binary path and it may
    not be unlinked; the text returned is the message of the
    [PermissionError], not the error stream of the compiler.  (A text
    that cannot be encoded does not get that far: the write of the source
    file raises, and its message is the text returned.) *)
Theorem failed_cleanup_replaces_result (mc : machine) (l : language)
    (code_file : string) (code : text) (w w3 : world) (p : completed) (b : text) :
  l = C ∨ l = Cpp →
  staged w code_file code →
  code_file ≠ source_name l →
  source_name l ∉ denied w →
  compile_step mc l (with_source l code w) = (Ok p, w3) →
  returncode p ≠ 0%Z →
  fs w3 !! binary_name l = Some b →
  binary_name l ∈ denied w →
  execute_code mc l code_file w =
  match encode_error code with
  | None => (Ok (str "[Errno 13] Permission denied: 'appstack_temp/temp_exec'"), w3)
  | Some e => (Ok (exn_str e), set_fs (<[source_name l := []]> (fs w)) w)
  end.
Proof.
  intros Hl Hst Hne Hsrc Hcomp Hrc Hb Hden.
  destruct (encode_error code) as [e |] eqn:Henc.
  { pose proof (write_source_unencodable _ _ _ _ _ Hst Hne Hsrc Henc) as Hws.
    unfold execute_code, try_except, execute_body.
    destruct Hl as [-> | ->]; cbv zeta; by rewrite (bind_raise _ _ _ _ _ Hws). }
  assert (compiled l) as Hl' by (unfold compiled; tauto).
  rewrite (after_compile mc l code_file code w w3 p Hl' Hst Hne Hsrc Henc Hcomp).
  apply Z.eqb_neq in Hrc.
  destruct (compile_step_calls mc l _ _ _ Hl' Hcomp) as [Hd3 _].
  change (denied (with_source l code w)) with (denied w) in Hd3.
  assert ((output <- ret (stderr p) ;;
           present <- path_exists (binary_name l) ;;
           (if present then remove (binary_name l) else ret tt) ;;
           ret output) w3 = (Raise (PermissionError (binary_name l)), w3)) as Hclean.
  { unfold bind at 1, ret at 1. rewrite cleanup_cases, Hb.
    by rewrite decide_True by by rewrite Hd3. }
  unfold try_except.
  destruct Hl as [-> | ->]; rewrite Hrc; cbv iota; by rewrite Hclean.
Qed.

Lemma failed_cleanup_replaces_result_witness :
  let mc := toy_machine in
  let code := str "bad" in
  let w := (save_code C code
              (init {[binary_name C := str "old"]} {[binary_name C]})).2 in
  ∃ p w3 b,
    (C = C ∨ C = Cpp) ∧
    staged w (descriptor C) code ∧
    descriptor C ≠ source_name C ∧
    (source_name C ∉ denied w) ∧
    compile_step mc C (with_source C code w) = (Ok p, w3) ∧
    returncode p ≠ 0%Z ∧
    fs w3 !! binary_name C = Some b ∧
    (binary_name C ∈ denied w) ∧
    encode_error code = None ∧
    execute_code mc C (descriptor C) w =
    match encode_error code with
    | None => (Ok (str "[Errno 13] Permission denied: 'appstack_temp/temp_exec'"), w3)
    | Some e => (Ok (exn_str e), set_fs (<[source_name C := []]> (fs w)) w)
    end.
Proof.
  intros mc code w.
  assert (staged w (descriptor C) code) as Hst.
  { exists (descriptor_text C code), [(str "language", str "C"); (str "code", code)].
    repeat split; vm_compute; reflexivity. }
  assert (descriptor C ≠ source_name C) as Hne by done.
  assert (source_name C ∉ denied w) as Hsrc.
  { change (source_name C ∉ ({[binary_name C]} : gset string)).
    intros Hin. apply elem_of_singleton in Hin. discriminate Hin. }
  assert (binary_name C ∈ denied w) as Hden.
  { change (binary_name C ∈ ({[binary_name C]} : gset string)).
    by apply elem_of_singleton. }
  destruct (compile_step mc C (with_source C code w)) as [[p | e] w3] eqn:Hcomp;
    [| vm_compute in Hcomp; discriminate].
  assert (returncode p ≠ 0%Z ∧ fs w3 !! binary_name C = Some (str "old")) as [Hrc Hb].
  { vm_compute in Hcomp. injection Hcomp as <- <-. split; [done |].
    vm_compute. reflexivity. }
  exists p, w3, (str "old"). split; [by left |]. do 3 (split; [assumption |]).
  split; [reflexivity |]. do 3 (split; [assumption |]). split; [reflexivity |].
  exact (failed_cleanup_replaces_result mc C (descriptor C) code w w3 p (str "old")
           (or_introl eq_refl) Hst Hne Hsrc Hcomp Hrc Hb Hden).
Defined.

Lemma run_temp_code (mc : machine) (w : world) :
  run_argv mc "./temp_code" [] w =
  match fs w !! "./temp_code" with
  | Some b =>
      match loader mc b [] (fs w) with
      | Returns r =>
          (Ok r, set_fs (files_after r) (set_calls (calls w ++ [[str "./temp_code"]]) w))
      | Raises e files =>
          (Raise e, set_fs files (set_calls (calls w ++ [[str "./temp_code"]]) w))
      end
  | None =>
      (Raise (FileNotFoundError "./temp_code"),
       set_calls (calls w ++ [[str "./temp_code"]]) w)
  end.
Proof.
  unfold run_argv. rewrite subprocess_run_converted by (vm_compute; reflexivity).
  unfold resolve. change (has_slash "./temp_code") with true.
  cbv iota. by destruct (fs w !! "./temp_code").
Qed.

(** Rust, the compile step having exited with 0.  The program is looked
    for at [./temp_code]: when nothing is there the result is the message
    of the [FileNotFoundError].  Otherwise it is started: when that call
    raises, the result is the message of the exception and nothing is
    deleted; when it returns, the program is deleted and the result is
    its standard output or standard error by exit code, unless the
    deletion raises, in which case the result is the message of that
    exception. *)
Theorem rust_program_runs (mc : machine) (code_file : string) (code : text)
    (w w3 : world) (p : completed) :
  staged w code_file code →
  code_file ≠ source_name Rust →
  source_name Rust ∉ denied w →
  encodable code →
  compile_step mc Rust (with_source Rust code w) = (Ok p, w3) →
  returncode p = 0%Z →
  (execute_code mc Rust code_file w).1 =
  Ok (match fs w3 !! "./temp_code" with
      | None => str "[Errno 2] No such file or directory: './temp_code'"
      | Some b =>
          match loader mc b [] (fs w3) with
          | Raises e _ => exn_str e
          | Returns r =>
              match files_after r !! "./temp_code" with
              | None => str "[Errno 2] No such file or directory: './temp_code'"
              | Some _ =>
                  if decide ("./temp_code" ∈ denied w)
                  then str "[Errno 13] Permission denied: './temp_code'"
                  else if (returncode r =? 0)%Z then stdout r else stderr r
              end
          end
      end) ∧
  calls (execute_code mc Rust code_file w).2 =
  calls w ++ [compile_argv Rust; [str "./temp_code"]] ∧
  (∀ b e files, fs w3 !! "./temp_code" = Some b → loader mc b [] (fs w3) = Raises e files →
                fs (execute_code mc Rust code_file w).2 = files).
Proof.
  intros Hst Hne Hsrc Henc Hcomp Hrc.
  assert (compiled Rust) as Hl by (right; by right).
  rewrite (after_compile mc Rust code_file code w w3 p Hl Hst Hne Hsrc Henc Hcomp).
  destruct (compile_step_calls mc Rust _ _ _ Hl Hcomp) as [Hd3 Hc3].
  change (denied (with_source Rust code w)) with (denied w) in Hd3.
  change (calls (with_source Rust code w)) with (calls w) in Hc3.
  apply Z.eqb_eq in Hrc. rewrite Hrc. cbv iota.
  assert (∀ x, calls x = calls w3 ++ [[str "./temp_code"]] →
               calls x = calls w ++ [compile_argv Rust; [str "./temp_code"]]) as Hcalls.
  { intros x ->. by rewrite Hc3, <- app_assoc. }
  unfold try_except, bind, run_step. rewrite !run_temp_code.
  change (binary_name Rust) with "./temp_code".
  destruct (fs w3 !! "./temp_code") as [b |].
  - destruct (loader mc b [] (fs w3)) as [r | e files] eqn:Hload.
    + unfold remove, ret. cbn [fs set_fs denied set_calls].
      destruct (files_after r !! "./temp_code").
      * rewrite Hd3. case_decide;
          (split; [reflexivity |
                   split; [by apply Hcalls | intros ? ? ? [= <-] Hraise; congruence]]).
      * split; [reflexivity |
                split; [by apply Hcalls | intros ? ? ? [= <-] Hraise; congruence]].
    + split; [reflexivity |]. split; [by apply Hcalls |].
      intros ? ? ? [= <-] Hraise. rewrite Hload in Hraise. by injection Hraise as <- <-.
  - split; [reflexivity |]. split; [by apply Hcalls | done].
Qed.

Lemma rust_program_runs_witness :
  let mc := toy_machine in
  let code := str "oxidised" in
  let w := (save_code Rust code (init ∅ ∅)).2 in
  ∃ p w3,
    staged w (descriptor Rust) code ∧
    descriptor Rust ≠ source_name Rust ∧
    (source_name Rust ∉ denied w) ∧
    encodable code ∧
    compile_step mc Rust (with_source Rust code w) = (Ok p, w3) ∧
    returncode p = 0%Z ∧
    (execute_code mc Rust (descriptor Rust) w).1 =
    Ok (match fs w3 !! "./temp_code" with
        | None => str "[Errno 2] No such file or directory: './temp_code'"
        | Some b =>
            match loader mc b [] (fs w3) with
            | Raises e _ => exn_str e
            | Returns r =>
                match files_after r !! "./temp_code" with
                | None => str "[Errno 2] No such file or directory: './temp_code'"
                | Some _ =>
                    if decide ("./temp_code" ∈ denied w)
                    then str "[Errno 13] Permission denied: './temp_code'"
                    else if (returncode r =? 0)%Z then stdout r else stderr r
                end
            end
        end) ∧
    calls (execute_code mc Rust (descriptor Rust) w).2 =
    calls w ++ [compile_argv Rust; [str "./temp_code"]] ∧
    (∀ b e files, fs w3 !! "./temp_code" = Some b → loader mc b [] (fs w3) = Raises e files →
                  fs (execute_code mc Rust (descriptor Rust) w).2 = files).
Proof.
  intros mc code w.
  assert (staged w (descriptor Rust) code) as Hst.
  { exists (descriptor_text Rust code), [(str "language", str "Rust"); (str "code", code)].
    repeat split; vm_compute; reflexivity. }
  assert (descriptor Rust ≠ source_name Rust) as Hne by done.
  assert (source_name Rust ∉ denied w) as Hsrc by apply not_elem_of_empty.
  assert (encodable code) as Henc by reflexivity.
  destruct (compile_step mc Rust (with_source Rust code w)) as [[p | e] w3] eqn:Hcomp;
    [| vm_compute in Hcomp; discriminate].
  assert (returncode p = 0%Z) as Hrc.
  { vm_compute in Hcomp. injection Hcomp as <- _. done. }
  exists p, w3. do 4 (split; [assumption |]). split; [reflexivity |].
  split; [assumption |].
  exact (rust_program_runs mc (descriptor Rust) code w w3 p Hst Hne Hsrc Henc Hcomp Hrc).
Defined.

(** ** A descriptor that is not there *)

Lemma write_source_missing (filename code_file : string) (w : world) :
  fs w !! code_file = None →
  code_file ≠ filename →
  filename ∉ denied w →
  write_source filename code_file w =
  (Raise (FileNotFoundError code_file), set_fs (<[filename := []]> (fs w)) w).
Proof.
  intros Hnone Hne Hden. unfold write_source.
  rewrite (bind_ok _ _ _ _ _ (open_w_ok _ _ Hden)).
  unfold bind, json_load, bind, read. cbn [fs set_fs].
  by rewrite lookup_insert_ne, Hnone.
Qed.

(** When the descriptor cannot be opened the result is the message of
    the [FileNotFoundError] and no process is started.  For a language
    with a source file that file has already been opened for writing: it
    is left empty. *)
Theorem missing_descriptor (mc : machine) (l : language) (code_file : string) (w : world) :
  fs w !! code_file = None →
  code_file ≠ source_name l →
  (l ≠ Python → source_name l ∉ denied w) →
  execute_code mc l code_file w =
  (Ok (str ("[Errno 2] No such file or directory: '" +:+ code_file +:+ "'")),
   match l with
   | Python => w
   | _ => set_fs (<[source_name l := []]> (fs w)) w
   end).
Proof.
  intros Hnone Hne Hsrc.
  unfold execute_code, try_except, execute_body.
  destruct l; cbv zeta.
  1: { unfold bind at 1 2. unfold json_load, bind, read. by rewrite Hnone. }
  all: by rewrite (bind_raise _ _ _ _ _
            (write_source_missing _ _ _ Hnone Hne (Hsrc ltac:(done)))).
Qed.

Lemma missing_descriptor_witness :
  let mc := toy_machine in
  let w := init {[source_name Go := str "package main"]} ∅ in
  fs w !! descriptor Go = None ∧
  descriptor Go ≠ source_name Go ∧
  (Go ≠ Python → source_name Go ∉ denied w) ∧
  execute_code mc Go (descriptor Go) w =
  (Ok (str ("[Errno 2] No such file or directory: '" +:+ descriptor Go +:+ "'")),
   match Go with
   | Python => w
   | _ => set_fs (<[source_name Go := []]> (fs w)) w
   end).
Proof.
  intros mc w.
  assert (fs w !! descriptor Go = None) as Hnone by (vm_compute; reflexivity).
  assert (descriptor Go ≠ source_name Go) as Hne by done.
  assert (Go ≠ Python → source_name Go ∉ denied w) as Hsrc.
  { intros _. apply not_elem_of_empty. }
  do 3 (split; [assumption |]).
  exact (missing_descriptor mc Go (descriptor Go) w Hnone Hne Hsrc).
Defined.

(** * Further properties of staging *)

Lemma descriptor_inj (l1 l2 : language) : descriptor l1 = descriptor l2 → l1 = l2.
Proof. destruct l1, l2; intros H; first [reflexivity | discriminate H]. Qed.

(** One record per language.  Staging touches the descriptor of its
    language and nothing else; staging a language again replaces what was
    staged for it; staging two different languages gives the same files
    in either order, each descriptor holding the text staged for it. *)
Theorem staging_composes (l1 l2 : language) (c1 c2 : text) (w : world) :
  descriptor l1 ∉ denied w →
  descriptor l2 ∉ denied w →
  (∀ p, p ≠ descriptor l1 → fs (save_code l1 c1 w).2 !! p = fs w !! p) ∧
  (l1 = l2 →
   (save_code l2 c2 (save_code l1 c1 w).2).2 = (save_code l2 c2 w).2) ∧
  (l1 ≠ l2 →
   (save_code l2 c2 (save_code l1 c1 w).2).2 =
   (save_code l1 c1 (save_code l2 c2 w).2).2 ∧
   fs (save_code l2 c2 (save_code l1 c1 w).2).2 !! descriptor l1 =
   Some (descriptor_text l1 c1) ∧
   fs (save_code l2 c2 (save_code l1 c1 w).2).2 !! descriptor l2 =
   Some (descriptor_text l2 c2)).
Proof.
  intros H1 H2.
  rewrite (save_code_ok l1 c1 w H1), (save_code_ok l2 c2 w H2). cbn [snd].
  rewrite (save_code_ok l2 c2 (set_fs _ w)) by done.
  rewrite (save_code_ok l1 c1 (set_fs _ w)) by done. cbn [snd fs set_fs].
  split; [| split].
  - intros p Hp. by rewrite lookup_insert_ne.
  - intros ->. unfold set_fs. cbn. f_equal. apply insert_insert_eq.
  - intros Hne.
    assert (descriptor l1 ≠ descriptor l2) as Hd by (intros H; by apply descriptor_inj in H).
    split; [| split].
    + unfold set_fs. cbn. f_equal. by apply insert_insert_ne.
    + rewrite lookup_insert_ne by done. apply lookup_insert_eq.
    + apply lookup_insert_eq.
Qed.

Lemma staging_composes_witness :
  let l1 := Python in
  let l2 := Go in
  let c1 := str "print(1)" in
  let c2 := str "package main" in
  let w := init ∅ ∅ in
  (descriptor l1 ∉ denied w) ∧
  (descriptor l2 ∉ denied w) ∧
  (∀ p, p ≠ descriptor l1 → fs (save_code l1 c1 w).2 !! p = fs w !! p) ∧
  (l1 = l2 →
   (save_code l2 c2 (save_code l1 c1 w).2).2 = (save_code l2 c2 w).2) ∧
  (l1 ≠ l2 →
   (save_code l2 c2 (save_code l1 c1 w).2).2 =
   (save_code l1 c1 (save_code l2 c2 w).2).2 ∧
   fs (save_code l2 c2 (save_code l1 c1 w).2).2 !! descriptor l1 =
   Some (descriptor_text l1 c1) ∧
   fs (save_code l2 c2 (save_code l1 c1 w).2).2 !! descriptor l2 =
   Some (descriptor_text l2 c2)).
Proof.
  intros l1 l2 c1 c2 w.
  assert (descriptor l1 ∉ denied w) as H1 by apply not_elem_of_empty.
  assert (descriptor l2 ∉ denied w) as H2 by apply not_elem_of_empty.
  split; [exact H1 |]. split; [exact H2 |].
  exact (staging_composes l1 l2 c1 c2 w H1 H2).
Defined.

(** ** The descriptor is printable ASCII *)

(** Whatever the text, code points beyond ASCII, control characters,
    line breaks and quotes included, the document [save_code] writes is
    made of printable ASCII characters only; in particular it is one
    line. *)
Theorem descriptor_is_printable_ascii (l : language) (code : text) (w : world) :
  Forall (λ c, 32 ≤ c ≤ 126) (descriptor_text l code) ∧
  (descriptor l ∉ denied w →
   ∃ t, fs (save_code l code w).2 !! descriptor l = Some t ∧
        Forall (λ c, 32 ≤ c ≤ 126) t).
Proof.
  pose proof (descriptor_text_printable l code) as Hp.
  split; [exact Hp |]. intros Hd. exists (descriptor_text l code).
  rewrite (save_code_ok l code w Hd). cbn. split; [apply lookup_insert_eq | exact Hp].
Qed.

(** ** What is read back, for every text *)

(** For every text, what [execute_code] reads back from the descriptor
    is the staged text with each high surrogate that is directly followed
    by a low surrogate merged with it into the code point the pair
    encodes.  It is the staged text when there is no such pair, and a
    shorter text when there is one. *)
Theorem read_back_merges_surrogate_pairs (l : language) (code : text) (w : world) :
  Forall code_point code →
  descriptor l ∉ denied w →
  ∃ w1 d,
    save_code l code w = (Ok (descriptor l), w1) ∧
    json_load (descriptor l) w1 = (Ok d, w1) ∧
    getitem d "code" w1 = (Ok (merge_pairs code), w1) ∧
    (surrogate_pair_free code → merge_pairs code = code) ∧
    (¬ surrogate_pair_free code → (length (merge_pairs code) < length code)%nat).
Proof.
  intros Hcode Hden. eexists _, _.
  split; [by apply save_code_ok |].
  split.
  { eapply json_load_ok; [| by apply descriptor_text_loads].
    cbn. apply lookup_insert_eq. }
  split; [by apply getitem_ok |].
  split; [apply merge_pairs_free | apply merge_pairs_shorter].
Qed.

Lemma read_back_merges_surrogate_pairs_witness :
  let code := [104; 0xd83d; 0xde00] in
  let w := init ∅ ∅ in
  Forall code_point code ∧
  (descriptor Python ∉ denied w) ∧
  ∃ w1 d,
    save_code Python code w = (Ok (descriptor Python), w1) ∧
    json_load (descriptor Python) w1 = (Ok d, w1) ∧
    getitem d "code" w1 = (Ok (merge_pairs code), w1) ∧
    (surrogate_pair_free code → merge_pairs code = code) ∧
    (¬ surrogate_pair_free code → (length (merge_pairs code) < length code)%nat).
Proof.
  intros code w.
  assert (Forall code_point code) as Hcode.
  { repeat constructor; unfold code_point; lia. }
  assert (descriptor Python ∉ denied w) as Hden by apply not_elem_of_empty.
  split; [exact Hcode |]. split; [exact Hden |].
  exact (read_back_merges_surrogate_pairs Python code w Hcode Hden).
Defined.

Example merge_pairs_example : merge_pairs [104; 0xd83d; 0xde00] = [104; 0x1f600].
Proof. reflexivity. Qed.

(** * Further properties of the scheduler *)

Lemma clear_output_machine (w : world) :
  fs (clear_output w) = fs w ∧ calls (clear_output w) = calls w.
Proof.
  unfold clear_output. cbv zeta. destruct (gui_process_running _); [| done].
  unfold terminate. cbn [gui_process set_output_area children].
  destruct (gui_process w) as [i |]; [| done]. by destruct (children w !! i).
Qed.

Lemma child_exit_machine (i : nat) (normal : bool) (w : world) :
  fs (child_exit i normal w) = fs w ∧ calls (child_exit i normal w) = calls w.
Proof.
  unfold child_exit. destruct (children w !! i) as [c |]; [| done].
  destruct (alive c); [| done]. unfold on_gui_finished. by destruct (exit_status _).
Qed.

(** Nothing is dispatched, written or run unless a document changes:
    with the timer stopped, as [__init__] leaves it, selecting tabs,
    clearing, the end of preview children and any amount of time leave the
    files, the record of calls and the history of dispatches as they
    are, and the timer stopped. *)
Theorem no_change_no_dispatch (mc : machine) (es : list event) (w : world) :
  Forall (λ e, is_change e = false) es →
  run_timer w = None →
  dispatched (run_events mc es w) = dispatched w ∧
  fs (run_events mc es w) = fs w ∧
  calls (run_events mc es w) = calls w ∧
  run_timer (run_events mc es w) = None.
Proof.
  revert w. induction es as [|e es IH]; intros w Hes Ht; [done |].
  apply Forall_cons in Hes as [He Hes]. rewrite run_events_cons.
  assert (dispatched (handle mc e w) = dispatched w ∧ fs (handle mc e w) = fs w ∧
          calls (handle mc e w) = calls w ∧ run_timer (handle mc e w) = None)
    as (Hd & Hf & Hc & Ht').
  { unfold handle. destruct (crashed w); [done |].
    destruct e as [l t | l | | i normal | d | i]; [done | done | | | |].
    - destruct (clear_output_fields w) as (-> & -> & _).
      by destruct (clear_output_machine w) as [-> ->].
    - destruct (child_exit_fields i normal w) as (-> & -> & _).
      by destruct (child_exit_machine i normal w) as [-> ->].
    - by rewrite iter_tick_stopped.
    - by destruct (child_started_fields mc i w) as (-> & -> & _ & _ & _ & -> & -> & _). }
  destruct (IH (handle mc e w) Hes Ht') as (-> & -> & -> & ->). done.
Qed.

Lemma no_change_no_dispatch_witness :
  let mc := toy_machine in
  let es := [TabSelected Go; Idle 5000; ClearClicked; ChildStarted 0; ChildExited 0 true;
             Idle 1500] in
  let w := example_world Python (str "print(1)") ∅ in
  Forall (λ e, is_change e = false) es ∧
  run_timer w = None ∧
  dispatched (run_events mc es w) = dispatched w ∧
  fs (run_events mc es w) = fs w ∧
  calls (run_events mc es w) = calls w ∧
  run_timer (run_events mc es w) = None.
Proof.
  intros mc es w.
  assert (Forall (λ e, is_change e = false) es) as Hes by (repeat constructor).
  split; [exact Hes |]. split; [reflexivity |].
  exact (no_change_no_dispatch mc es w Hes eq_refl).
Defined.

Lemma tick_balance (mc : machine) (w : world) :
  (length (dispatched (tick mc w)) + pending (tick mc w) =
   length (dispatched w) + pending w)%nat ∨
  tick mc w = w.
Proof.
  unfold tick. destruct (crashed w); [by right |].
  destruct (run_timer w) as [[|[|r]] |] eqn:Ht;
    [| | left; unfold pending; cbn; by rewrite Ht | by right].
  all: left; fold (fire mc w); destruct (fire_fields mc w) as (Hn & Hd & _);
    unfold pending; rewrite Hn, Hd, Ht, length_app; cbn; lia.
Qed.

Lemma iter_tick_balance (mc : machine) (d : nat) (w : world) :
  (length (dispatched (Nat.iter d (tick mc) w)) + pending (Nat.iter d (tick mc) w) =
   length (dispatched w) + pending w)%nat.
Proof.
  induction d as [|d IH]; [done |]. rewrite Nat.iter_succ.
  destruct (tick_balance mc (Nat.iter d (tick mc) w)) as [H | ->]; lia.
Qed.

(** No queue: at any time at most one dispatch is pending, and every
    dispatch made uses up a change of a document.  Over any run of
    events, the dispatches made plus the one that may be pending at the
    end are at most the dispatches made before, the one that was pending,
    and the changes in the run. *)
Theorem dispatches_bounded_by_changes (mc : machine) (es : list event) (w : world) :
  (length (dispatched (run_events mc es w)) + pending (run_events mc es w) ≤
   length (dispatched w) + pending w + length (filter (λ e, is_change e = true) es))%nat.
Proof.
  revert w. induction es as [|e es IH]; intros w; [cbn; lia |].
  rewrite run_events_cons. specialize (IH (handle mc e w)).
  assert (length (dispatched (handle mc e w)) + pending (handle mc e w) ≤
          length (dispatched w) + pending w + (if is_change e then 1 else 0))%nat as He.
  { unfold handle. destruct (crashed w); [destruct (is_change e); lia |].
    destruct e as [l t | l | | i normal | d | i]; cbn [is_change].
    - unfold pending. cbn. destruct (run_timer w); lia.
    - unfold pending. cbn. lia.
    - unfold pending. destruct (clear_output_fields w) as (-> & -> & _). lia.
    - unfold pending. destruct (child_exit_fields i normal w) as (-> & -> & _). lia.
    - rewrite iter_tick_balance. lia.
    - unfold pending. destruct (child_started_fields mc i w) as (-> & -> & _). lia. }
  destruct (is_change e) eqn:Hc.
  - rewrite filter_cons_True by done. cbn [length]. lia.
  - rewrite filter_cons_False by (by rewrite Hc). lia.
Qed.

(** * Further properties of the preview *)



(** The child of the first of two previews is ended by the request to
    terminate, abnormally, while the second runs: the label says
    finished. *)
Example replaced_child_crash_reads_finished :
  gui_preview
    (run_events toy_machine
       [TextChanged Python (str "import PyQt6 # a"); Idle 1500; ChildStarted 0;
        TextChanged Python (str "import PyQt6 # b"); Idle 1500; ChildStarted 1;
        ChildExited 0 false]
       (init ∅ ∅)) = "GUI Preview Finished".
Proof. vm_compute. reflexivity. Qed.

(** * Properties of the highlighter *)

Lemma closing_spec (q : N) (s : text) (k : nat) :
  closing q s = Some k →
  s !! k = Some q ∧ ∀ m, (m < k)%nat → ∃ c, s !! m = Some c ∧ c ≠ q ∧ c ≠ 10.
Proof.
  revert k. induction s as [|c s IH]; intros k; [done |]. cbn [closing].
  destruct (N.eqb_spec c q) as [-> | Hq].
  { intros [= <-]. split; [done | lia]. }
  destruct (N.eqb_spec c 10) as [-> | Hn]; [done |].
  destruct (closing q s) as [k' |]; [| done]. intros [= <-].
  destruct (IH k' eq_refl) as [Hk Hbefore]. split; [done |].
  intros [|m] Hm; [by exists c |]. apply Hbefore. lia.
Qed.

Lemma finditer_quoted_sound (q : N) (s : text) (i skip a b : nat) :
  (a, b) ∈ finditer_quoted q i skip s →
  ∃ o k, a = (i + o)%nat ∧ b = (a + k + 2)%nat ∧
         s !! o = Some q ∧ s !! (o + k + 1)%nat = Some q ∧
         ∀ m, (o < m < o + k + 1)%nat → ∃ c, s !! m = Some c ∧ c ≠ q ∧ c ≠ 10.
Proof.
  revert i skip. induction s as [|c s IH]; intros i skip Hin; [by apply elem_of_nil in Hin |].
  cbn [finditer_quoted] in Hin.
  assert (∀ skip', (a, b) ∈ finditer_quoted q (S i) skip' s →
            ∃ o k, a = (i + o)%nat ∧ b = (a + k + 2)%nat ∧
                   (c :: s) !! o = Some q ∧ (c :: s) !! (o + k + 1)%nat = Some q ∧
                   ∀ m, (o < m < o + k + 1)%nat →
                        ∃ c', (c :: s) !! m = Some c' ∧ c' ≠ q ∧ c' ≠ 10) as Hrest.
  { intros skip' Hin'. destruct (IH _ _ Hin') as (o & k & -> & -> & Ho & Hk & Hmid).
    exists (S o), k. split; [lia |]. split; [lia |]. split; [done |]. split; [done |].
    intros [|m] Hm; [lia |]. apply Hmid. lia. }
  destruct skip as [|skip]; [| by eapply Hrest].
  destruct (N.eqb_spec c q) as [-> | Hq]; [| by eapply Hrest].
  destruct (closing q s) as [k |] eqn:Hclose; [| by eapply Hrest].
  apply elem_of_cons in Hin as [[= -> ->] | Hin]; [| by eapply Hrest].
  destruct (closing_spec q s k Hclose) as [Hk Hbefore].
  exists 0%nat, k. split; [lia |]. split; [lia |]. split; [done |].
  split; [by replace (0 + k + 1)%nat with (S k) by lia |].
  intros [|m] Hm; [lia |]. apply Hbefore. lia.
Qed.

Lemma highlightBlock_split (word : N → bool) (text : text) :
  highlightBlock word text = keyword_calls word text ++ string_calls text.
Proof.
  unfold highlightBlock, rules, keyword_calls, string_calls.
  rewrite flat_map_app. f_equal. cbn [flat_map finditer]. by rewrite app_nil_r.
Qed.

Lemma keyword_calls_format (word : N → bool) (text : text) :
  Forall (λ call, call.2 = keyword_format) (keyword_calls word text).
Proof.
  unfold keyword_calls. generalize keywords. intros kws.
  induction kws as [|kw kws IH]; [apply Forall_nil_2 |].
  cbn [flat_map]. apply Forall_app. split; [| exact IH].
  apply Forall_fmap, Forall_forall. by intros [a b] _.
Qed.

Lemma string_calls_format (text : text) :
  Forall (λ call, call.2 = string_format) (string_calls text).
Proof.
  unfold string_calls. apply Forall_app.
  split; apply Forall_fmap, Forall_forall; by intros [a b] _.
Qed.

(** The string rules.  A call made for them covers a quote, single or
    double, the next quote of the same kind, and what is between the
    two, in which there is no line break; so it covers two characters at
    least. *)
Theorem string_calls_sound (word : N → bool) (text : text) (start count : nat) :
  (start, count, string_format) ∈ highlightBlock word text →
  ∃ q, (q = 34 ∨ q = 39) ∧ (2 ≤ count)%nat ∧
       text !! start = Some q ∧
       text !! (start + count - 1)%nat = Some q ∧
       ∀ m, (start < m < start + count - 1)%nat →
            ∃ c, text !! m = Some c ∧ c ≠ q ∧ c ≠ 10.
Proof.
  rewrite highlightBlock_split. intros Hin. apply elem_of_app in Hin as [Hin | Hin].
  { pose proof (keyword_calls_format word text) as Hf.
    rewrite Forall_forall in Hf. by specialize (Hf _ Hin). }
  assert (∀ q, (start, count, string_format) ∈
               ((λ '(start, end_), (start, end_ - start, string_format)%nat) <$>
                finditer_quoted q 0 0 text) →
            (2 ≤ count)%nat ∧ text !! start = Some q ∧
            text !! (start + count - 1)%nat = Some q ∧
            ∀ m, (start < m < start + count - 1)%nat →
                 ∃ c, text !! m = Some c ∧ c ≠ q ∧ c ≠ 10) as Hq.
  { intros q Hq. apply list_elem_of_fmap in Hq as ([a b] & [= -> ->] & Hab).
    destruct (finditer_quoted_sound q text 0 0 a b Hab)
      as (o & k & -> & -> & Ho & Hk & Hmid). cbn [Nat.add] in *.
    replace (o + k + 2 - o)%nat with (k + 2)%nat by lia.
    replace (o + (k + 2) - 1)%nat with (o + k + 1)%nat by lia.
    split; [lia |]. done. }
  unfold string_calls in Hin. apply elem_of_app in Hin as [Hin | Hin].
  - exists 34. split; [by left | by apply Hq].
  - exists 39. split; [by right | by apply Hq].
Qed.

(** The keyword rules. *)

Lemma keywords_lowercase (kw : string) :
  kw ∈ keywords → str kw ≠ [] ∧ Forall (λ c, 97 ≤ c ≤ 122) (str kw).
Proof.
  assert (forallb (λ kw, negb (length (str kw) =? 0)%nat &&
                         forallb (λ c, (97 <=? c) && (c <=? 122)) (str kw))
                  keywords = true) as Hall by (vm_compute; reflexivity).
  rewrite forallb_forall in Hall. intros Hin. apply list_elem_of_In in Hin.
  specialize (Hall _ Hin). apply andb_true_iff in Hall as [Hlen Hlow]. split.
  - intros Hnil. by rewrite Hnil in Hlen.
  - rewrite forallb_forall in Hlow. apply Forall_forall. intros c Hc.
    apply list_elem_of_In, Hlow, andb_true_iff in Hc as [H1 H2].
    apply N.leb_le in H1, H2. lia.
Qed.

Lemma head_drop_lookup {A} (l : list A) (n : nat) : head (drop n l) = l !! n.
Proof. by rewrite head_lookup, lookup_drop, Nat.add_0_r. Qed.

Lemma lookup_drop_text (s : text) (n i : nat) : drop n s !! i = s !! (n + i)%nat.
Proof. apply lookup_drop. Qed.

Lemma starts_with_inside (word : N → bool) (kw s : text) (o : nat) :
  Forall (λ c, word c = true) kw →
  starts_with kw s = true → (o < length kw)%nat →
  is_word word (s !! o) = true.
Proof.
  intros Hw Hs Ho. apply starts_with_spec in Hs as [post ->].
  unfold text in *. rewrite (lookup_app_l kw post o Ho).
  destruct (lookup_lt_is_Some_2 kw o Ho) as [c Hc]. rewrite Hc. cbn.
  by apply (Forall_lookup_1 _ _ _ _ Hw Hc).
Qed.

(** For a keyword made of word characters, the pattern matches where the
    keyword stands with no word character before it and none after
    it. *)
Lemma word_match_spec (word : N → bool) (kw : text) (prev : option N) (s : text) :
  kw ≠ [] → Forall (λ c, word c = true) kw →
  word_match word kw prev s = true ↔
  starts_with kw s = true ∧ is_word word prev = false ∧
  is_word word (s !! length kw) = false.
Proof.
  intros Hne Hw. unfold word_match, boundary.
  destruct (starts_with kw s) eqn:Hs.
  2: { rewrite andb_false_r. cbn. split; [done | by intros [? _]]. }
  assert (is_word word (head s) = true) as ->.
  { rewrite head_lookup. apply (starts_with_inside word kw); [done | done |].
    destruct kw; [done | cbn; lia]. }
  assert (is_word word (from_option Some prev (last kw)) = true) as ->.
  { destruct (last kw) as [c |] eqn:Hl.
    - apply last_Some in Hl as [l' ->]. cbn. apply Forall_app in Hw as [_ Hw].
      rewrite Forall_singleton in Hw. exact Hw.
    - by apply last_None in Hl. }
  rewrite head_drop_lookup.
  destruct (is_word word prev); destruct (is_word word _); cbn;
    intuition congruence.
Qed.

(** [finditer] for a keyword made of word characters finds every place
    where the pattern matches: going on after the end of a match skips no
    other match, since a match cannot start inside a word. *)
Lemma finditer_word_spec (word : N → bool) (kw : text) :
  kw ≠ [] → Forall (λ c, word c = true) kw →
  ∀ (s : text) (prev : option N) (i skip a b : nat),
    (a, b) ∈ finditer_word word kw prev i skip s ↔
    ∃ o, a = (i + o)%nat ∧ b = (a + length kw)%nat ∧ (skip ≤ o)%nat ∧
         word_match word kw (match o with O => prev | S j => s !! j end) (drop o s) = true.
Proof.
  intros Hne Hw. induction s as [|c s IH]; intros prev i skip a b.
  { cbn [finditer_word]. split; [intros H; by apply elem_of_nil in H |].
    intros (o & _ & _ & _ & Hm). rewrite drop_nil in Hm.
    apply word_match_spec in Hm as [Hm _]; [| done | done]. by destruct kw. }
  assert (∀ o, word_match word kw (match o with O => Some c | S j => s !! j end) (drop o s) =
               word_match word kw ((c :: s) !! o) (drop (S o) (c :: s))) as Hshift
    by (by intros [|o]).
  cbn [finditer_word]. destruct skip as [|k].
  - destruct (word_match word kw prev (c :: s)) eqn:Hm.
    + rewrite elem_of_cons, IH. split.
      * intros [[= -> ->] | (o & -> & -> & Hk & Ho)].
        -- exists O. split; [lia |]. split; [lia |]. split; [lia |]. exact Hm.
        -- exists (S o). split; [lia |]. split; [lia |]. split; [lia |].
           by rewrite <- Hshift.
      * intros (o & -> & -> & _ & Ho). destruct o as [|o].
        -- left. f_equal; lia.
        -- right. exists o. split; [lia |]. split; [lia |]. split; [| by rewrite Hshift].
           destruct (decide (length kw - 1 ≤ o)%nat) as [| Hlt]; [done |]. exfalso.
           apply word_match_spec in Hm as (Hs & _ & _); [| done | done].
           apply word_match_spec in Ho as (_ & Hprev & _); [| done | done].
           rewrite (starts_with_inside word kw (c :: s) o) in Hprev; [done | done | done | lia].
    + rewrite IH. split.
      * intros (o & -> & -> & Hk & Ho). exists (S o).
        split; [lia |]. split; [lia |]. split; [lia |]. by rewrite <- Hshift.
      * intros (o & -> & -> & _ & Ho). destruct o as [|o]; [cbn [drop] in Ho; congruence |].
        exists o. split; [lia |]. split; [lia |]. split; [lia |]. by rewrite Hshift.
  - rewrite IH. split.
    + intros (o & -> & -> & Hk & Ho). exists (S o).
      split; [lia |]. split; [lia |]. split; [lia |]. by rewrite <- Hshift.
    + intros (o & -> & -> & Hk & Ho). destruct o as [|o]; [lia |].
      exists o. split; [lia |]. split; [lia |]. split; [lia |]. by rewrite Hshift.
Qed.

(** The keyword rules.  Where the word characters include the lower-case
    letters, the calls made with the keyword format are exactly the
    places where one of the twelve keywords stands as a word of its own:
    the keyword is there, the character before it, if any, is no word
    character, and neither is the character after it, if any.  No such
    place is left out. *)
Theorem keyword_calls_exact (word : N → bool) (text : text) (start count : nat) :
  (∀ c, 97 ≤ c ≤ 122 → word c = true) →
  (start, count, keyword_format) ∈ highlightBlock word text ↔
  ∃ kw, kw ∈ keywords ∧ count = length (str kw) ∧
        starts_with (str kw) (drop start text) = true ∧
        is_word word (char_before text start) = false ∧
        is_word word (text !! (start + count)%nat) = false.
Proof.
  intros Hword.
  assert (∀ kw, kw ∈ keywords →
            str kw ≠ [] ∧ Forall (λ c, word c = true) (str kw)) as Hkw.
  { intros kw Hin. destruct (keywords_lowercase kw Hin) as [Hne Hlow]. split; [done |].
    eapply Forall_impl; [exact Hlow |]. intros c Hc. by apply Hword. }
  rewrite highlightBlock_split, elem_of_app. split.
  - intros [Hin | Hin].
    2: { pose proof (string_calls_format text) as Hf.
         rewrite Forall_forall in Hf. by specialize (Hf _ Hin). }
    unfold keyword_calls in Hin.
    apply list_elem_of_In, in_flat_map in Hin as (kw & Hk & Hin).
    apply list_elem_of_In in Hk, Hin. destruct (Hkw kw Hk) as [Hne Hw].
    apply list_elem_of_fmap in Hin as ([a b] & [= -> ->] & Hab).
    apply (finditer_word_spec word (str kw) Hne Hw) in Hab as (o & -> & -> & _ & Hm).
    apply word_match_spec in Hm as (Hs & Hprev & Hnext); [| done | done].
    rewrite lookup_drop_text in Hnext. cbn [Nat.add] in *.
    exists kw. split; [done |]. split; [lia |]. split; [done |]. split; [done |].
    by replace (o + (o + length (str kw) - o))%nat with (o + length (str kw))%nat by lia.
  - intros (kw & Hk & -> & Hs & Hprev & Hnext). left. destruct (Hkw kw Hk) as [Hne Hw].
    unfold keyword_calls. apply list_elem_of_In, in_flat_map. exists kw.
    split; [by apply list_elem_of_In |]. apply list_elem_of_In, list_elem_of_fmap.
    exists (start, (start + length (str kw))%nat). split; [f_equal; f_equal; lia |].
    apply (finditer_word_spec word (str kw) Hne Hw). exists start.
    split; [done |]. split; [done |]. split; [lia |].
    apply word_match_spec; [done | done |].
    by rewrite lookup_drop_text.
Qed.

Lemma string_calls_sound_witness :
  let text := str "x = 'if'" in
  (4, 4, string_format)%nat ∈ highlightBlock ascii_word text ∧
  ∃ q, (q = 34 ∨ q = 39) ∧ (2 ≤ 4)%nat ∧
       text !! 4%nat = Some q ∧
       text !! (4 + 4 - 1)%nat = Some q ∧
       ∀ m, (4 < m < 4 + 4 - 1)%nat →
            ∃ c, text !! m = Some c ∧ c ≠ q ∧ c ≠ 10.
Proof.
  intros text.
  assert ((4, 4, string_format)%nat ∈ highlightBlock ascii_word text) as Hin.
  { apply list_elem_of_In. vm_compute. tauto. }
  split; [exact Hin |].
  exact (string_calls_sound ascii_word text 4 4 Hin).
Defined.

Lemma ascii_word_lowercase (c : N) : 97 ≤ c ≤ 122 → ascii_word c = true.
Proof.
  intros [H1 H2]. unfold ascii_word.
  apply N.leb_le in H1, H2. rewrite H1, H2. cbn. by rewrite orb_true_r.
Qed.

Lemma keyword_calls_exact_witness :
  let text := str "(if)" in
  (∀ c, 97 ≤ c ≤ 122 → ascii_word c = true) ∧
  (1, 2, keyword_format)%nat ∈ highlightBlock ascii_word text ∧
  ((1, 2, keyword_format)%nat ∈ highlightBlock ascii_word text ↔
   ∃ kw, kw ∈ keywords ∧ 2%nat = length (str kw) ∧
         starts_with (str kw) (drop 1 text) = true ∧
         is_word ascii_word (char_before text 1) = false ∧
         is_word ascii_word (text !! (1 + 2)%nat) = false).
Proof.
  intros text. split; [exact ascii_word_lowercase |]. split.
  - apply list_elem_of_In. vm_compute. tauto.
  - exact (keyword_calls_exact ascii_word text 1 2 ascii_word_lowercase).
Defined.

(** The format a position is left with. *)

Lemma format_at_uniform (f : char_format) (p : nat)
    (calls : list (nat * nat * char_format)) (acc : option char_format) :
  Forall (λ call, call.2 = f) calls →
  foldl (λ acc '(start, count, f),
           if (start <=? p)%nat && (p <? start + count)%nat then Some f else acc)
        acc calls =
  if existsb (covers p) calls then Some f else acc.
Proof.
  revert acc. induction calls as [|[[start count] g] calls IH]; intros acc Hf; [done |].
  apply Forall_cons in Hf as [Hg Hf]. cbn in Hg. subst g.
  cbn [foldl existsb]. rewrite (IH _ Hf). unfold covers at 2. cbn [fst snd].
  destruct (existsb (covers p) calls); [by rewrite orb_true_r |].
  rewrite orb_false_r. done.
Qed.

Lemma existsb_string_call (f : char_format) (p : nat)
    (calls : list (nat * nat * char_format)) :
  Forall (λ call, call.2 = f) calls →
  existsb (λ call, covers p call && string_call call) calls =
  existsb (covers p) calls && match f with string_format => true | keyword_format => false end.
Proof.
  induction 1 as [|[[start count] g] calls Hg _ IH]; [done |].
  cbn in Hg. subst g. cbn [existsb]. rewrite IH. unfold string_call. cbn [snd].
  destruct f; [by rewrite !andb_false_r | by rewrite !andb_true_r].
Qed.

(** What a position of the block is left with.  The string rules come
    last in the list of rules, so their format replaces that of a
    keyword: a position inside the range of some string call has the
    string format, wherever keywords were found; a position inside the
    range of keyword calls only has the keyword format; and a position no
    call covers has no format set. *)
Theorem string_format_wins (word : N → bool) (text : text) (p : nat) :
  format_at (highlightBlock word text) p =
  if existsb (λ call, covers p call && string_call call) (highlightBlock word text)
  then Some string_format
  else if existsb (covers p) (highlightBlock word text)
       then Some keyword_format
       else None.
Proof.
  rewrite highlightBlock_split. unfold format_at. rewrite foldl_app, !existsb_app.
  rewrite (format_at_uniform keyword_format p _ _ (keyword_calls_format word text)).
  rewrite (format_at_uniform string_format p _ _ (string_calls_format text)).
  rewrite (existsb_string_call keyword_format p _ (keyword_calls_format word text)).
  rewrite (existsb_string_call string_format p _ (string_calls_format text)).
  rewrite andb_false_r, andb_true_r. cbn [orb].
  destruct (existsb (covers p) (string_calls text)); [done |].
  by rewrite orb_false_r.
Qed.
